(** * Candidate search and map matching of the OpenLR line decoder

    A shallow embedding of [openlr_dereferencer/decoding/candidate_functions.py]
    and the properties of its functions.

    Conventions of the embedding:
    - Python floats are read as exact rationals ([Q]); [==], [<=], [<] and [>]
      on them are [Qeq_bool], [Qle_bool] and their negations.
    - A map node is identified with its [node_id]; the lines meeting at a node
      are obtained from the map reader.
    - The collaborators imported by the module (map reader, geo tool, path
      mathematics, scoring, path search, route length) are the methods of the
      class [MapEnv].
    - The decoder observer is optional in the source ([observer is not None]);
      here [observer : bool] says whether one is attached, and the calls made
      on it are appended to a trace of [Event]s.
    - A raised exception is a value [Raise e]; the memoisation dictionary is
      threaded as state, since the source mutates one shared object. *)

From Stdlib Require Import ZArith QArith Qabs String Lia Lqa Sorted.
From stdpp Require Import base decidable countable gmap list.

#[local] Set Warnings "-clear-no-such-hyp".

(** ** Data model *)

(** [openlr.FRC]: functional road class, an integer enumeration 0..7. *)
Inductive FRC := FRC0 | FRC1 | FRC2 | FRC3 | FRC4 | FRC5 | FRC6 | FRC7.

Definition frc_value (f : FRC) : Z :=
  match f with
  | FRC0 => 0 | FRC1 => 1 | FRC2 => 2 | FRC3 => 3
  | FRC4 => 4 | FRC5 => 5 | FRC6 => 6 | FRC7 => 7
  end.

(** [openlr.FOW]: form of way. *)
Inductive FOW :=
  | UNDEFINED | MOTORWAY | MULTIPLE_CARRIAGEWAY | SINGLE_CARRIAGEWAY
  | ROUNDABOUT | TRAFFICSQUARE | SLIPROAD | OTHER.

(** [openlr.LocationReferencePoint], a named tuple. *)
Record LocationReferencePoint := mkLRP {
  lon : Q;
  lat : Q;
  frc : FRC;
  fow : FOW;
  bear : Z;
  lfrcnp : FRC;
  dnp : Z
}.

Definition Coordinates : Type := Q * Q.

(** A node of the map, identified by its [node_id]. *)
Definition Node : Type := Z.

(** The geometry of a line (a line string); the module only reads its
    planar [length]. *)
Record Geometry := mkGeometry {
  geometry_length : Q
}.

(** A line of the map. [line_length] is the attribute [Line.length] (metres),
    [geometry_length (geometry l)] is [line.geometry.length]. *)
Record Line := mkLine {
  line_id : Z;
  start_node : Node;
  end_node : Node;
  line_frc : FRC;
  line_fow : FOW;
  geometry : Geometry;
  line_length : Q
}.

(** A point on a line: the line and the relative offset of the point. *)
Record PointOnLine := mkPointOnLine {
  line : Line;
  relative_offset : Q
}.

(** A candidate is a point on a line with the score it was given. *)
Record Candidate := mkCandidate {
  point :> PointOnLine;
  score : Q
}.

(** [Route(start, path, end, geo_tool)]. *)
Record Route := mkRoute {
  route_start : Candidate;
  path : list Line;
  route_end : Candidate
}.

(** The options of [Config] read by the module. *)
Record Config := mkConfig {
  search_radius : Q;
  candidate_threshold : Q;
  max_bear_deviation : Q;
  bear_dist : Q;
  tolerated_lfrc : FRC → FRC;
  max_dnp_deviation : Q;
  tolerated_dnp_dev : Q;
  min_score : Q
}.

(** The calls made on the decoder observer. *)
Inductive Event :=
  | on_candidate_rejected_frc (lrp : LocationReferencePoint) (c : PointOnLine) (tolerated : FRC)
  | on_candidate_rejected_bearing (lrp : LocationReferencePoint) (c : PointOnLine)
      (bearing bear_diff max_dev : Q)
  | on_candidate_rejected (lrp : LocationReferencePoint) (c : Candidate)
  | on_candidate_found (lrp : LocationReferencePoint) (c : Candidate)
  | on_candidate_score (lrp : LocationReferencePoint) (c : PointOnLine) (what : Z) (value : Q)
  | on_candidates_found (lrp : LocationReferencePoint) (cs : list Candidate)
  | on_no_candidates_found (lrp : LocationReferencePoint)
  | on_route_success (current next_lrp : LocationReferencePoint) (source dest : Candidate) (r : Route)
  | on_route_fail (current next_lrp : LocationReferencePoint) (source dest : Candidate) (reason : string)
  | on_route_fail_length (current next_lrp : LocationReferencePoint) (source dest : Candidate)
      (r : Route) (len minlen maxlen : Q)
  | on_matching_fail (current next_lrp : LocationReferencePoint)
      (candidates next_candidates : list Candidate) (reason : string).

(** The two messages with which [match_tail] raises [LRDecodeError]. *)
Inductive DecodeMessage :=
  | NoCandidatesFoundFor (lrp : LocationReferencePoint)
  | NoCandidatesLeft.

(** The exceptions that the module's own statements can raise. *)
Inductive Exception :=
  | LRDecodeError (msg : DecodeMessage)
  | KeyError
  | IndexError.

Inductive Result (A : Type) :=
  | Ok (a : A)
  | Raise (e : Exception).
Arguments Ok {A} a.
Arguments Raise {A} e.

(** ** Keys of the memoisation dictionary

    The source indexes one dictionary with three kinds of tuples:
    [(c_from, c_to)], [(current, candidates[0])] and, in the membership test
    at the top of [match_tail], [(depth, candidates[0])]. An integer, a
    location reference point (a 7-tuple) and a candidate never compare equal
    in Python, hence the three disjoint constructors. *)
Inductive KeyHead :=
  | KDepth (depth : Z)
  | KLrp (lrp : LocationReferencePoint)
  | KCand (c : Candidate).

Definition CacheKey : Type := KeyHead * Candidate.

(** *** Decidable equality and countability of the key types *)

#[global] Instance Q_eq_dec : EqDecision Q.
Proof. solve_decision. Defined.
#[global] Instance Q_countable : Countable Q.
Proof.
  refine (inj_countable' (λ q, (Qnum q, Qden q)) (λ p, Qmake p.1 p.2) _).
  by intros [].
Defined.

#[global] Instance FRC_eq_dec : EqDecision FRC.
Proof. solve_decision. Defined.
#[global] Instance FRC_countable : Countable FRC.
Proof.
  refine (inj_countable' frc_value (λ z,
    match z with
    | 0 => FRC0 | 1 => FRC1 | 2 => FRC2 | 3 => FRC3
    | 4 => FRC4 | 5 => FRC5 | 6 => FRC6 | _ => FRC7
    end%Z) _).
  by intros [].
Defined.

Definition fow_value (f : FOW) : Z :=
  match f with
  | UNDEFINED => 0 | MOTORWAY => 1 | MULTIPLE_CARRIAGEWAY => 2
  | SINGLE_CARRIAGEWAY => 3 | ROUNDABOUT => 4 | TRAFFICSQUARE => 5
  | SLIPROAD => 6 | OTHER => 7
  end.

#[global] Instance FOW_eq_dec : EqDecision FOW.
Proof. solve_decision. Defined.
#[global] Instance FOW_countable : Countable FOW.
Proof.
  refine (inj_countable' fow_value (λ z,
    match z with
    | 0 => UNDEFINED | 1 => MOTORWAY | 2 => MULTIPLE_CARRIAGEWAY
    | 3 => SINGLE_CARRIAGEWAY | 4 => ROUNDABOUT | 5 => TRAFFICSQUARE
    | 6 => SLIPROAD | _ => OTHER
    end%Z) _).
  by intros [].
Defined.

#[global] Instance LRP_eq_dec : EqDecision LocationReferencePoint.
Proof. solve_decision. Defined.
#[global] Instance LRP_countable : Countable LocationReferencePoint.
Proof.
  refine (inj_countable'
    (λ l, (lon l, lat l, frc l, fow l, bear l, lfrcnp l, dnp l))
    (λ t, let '(a, b, c, d, e, f, g) := t in mkLRP a b c d e f g) _).
  by intros [].
Defined.

#[global] Instance Geometry_eq_dec : EqDecision Geometry.
Proof. solve_decision. Defined.
#[global] Instance Line_eq_dec : EqDecision Line.
Proof. solve_decision. Defined.
#[global] Instance Line_countable : Countable Line.
Proof.
  refine (inj_countable'
    (λ l, (line_id l, start_node l, end_node l, line_frc l, line_fow l,
           geometry_length (geometry l), line_length l))
    (λ t, let '(a, b, c, d, e, f, g) := t in mkLine a b c d e (mkGeometry f) g) _).
  by intros [? ? ? ? ? [] ?].
Defined.

#[global] Instance PointOnLine_eq_dec : EqDecision PointOnLine.
Proof. solve_decision. Defined.
#[global] Instance Candidate_eq_dec : EqDecision Candidate.
Proof. solve_decision. Defined.
#[global] Instance Candidate_countable : Countable Candidate.
Proof.
  refine (inj_countable'
    (λ c : Candidate, (line c, relative_offset c, score c))
    (λ t, let '(l, r, s) := t in mkCandidate (mkPointOnLine l r) s) _).
  by intros [[] ?].
Defined.

#[global] Instance KeyHead_eq_dec : EqDecision KeyHead.
Proof. solve_decision. Defined.
#[global] Instance KeyHead_countable : Countable KeyHead.
Proof.
  refine (inj_countable'
    (λ k, match k with
          | KDepth d => inl d
          | KLrp l => inr (inl l)
          | KCand c => inr (inr c)
          end)
    (λ s, match s with
          | inl d => KDepth d
          | inr (inl l) => KLrp l
          | inr (inr c) => KCand c
          end) _).
  by intros [].
Defined.

Arguments mkLRP (lon lat)%_Q frc fow bear%_Z lfrcnp dnp%_Z.
Arguments mkGeometry geometry_length%_Q.
Arguments mkLine (line_id start_node end_node)%_Z line_frc line_fow geometry line_length%_Q.
Arguments mkPointOnLine line relative_offset%_Q.
Arguments mkCandidate point score%_Q.
Arguments mkConfig (search_radius candidate_threshold max_bear_deviation bear_dist)%_Q
  tolerated_lfrc (max_dnp_deviation tolerated_dnp_dev min_score)%_Q.

(** ** The collaborators of the module

    Everything [candidate_functions.py] imports from the rest of the package
    and from the map: the reader's spatial query, the lines at a node, the
    projection and distances of [path_math], the bearing and scoring
    functions, the path search and the length of a route.
    [shortest_path] answers [None] where the source raises
    [LRPathNotFoundError]. [score_lrp_candidate] also receives the observer;
    the calls it makes on it are [score_events]. *)
Class MapEnv := {
  coords : LocationReferencePoint → Coordinates;
  find_lines_close_to : Coordinates → Q → list Line;
  incoming_lines : Node → list Line;
  outgoing_lines : Node → list Line;
  project : Line → Coordinates → PointOnLine;
  distance_from_start : PointOnLine → Q;
  distance_to_end : PointOnLine → Q;
  compute_bearing : PointOnLine → bool → Q → Q;
  angle_difference : Q → Z → Q;
  score_lrp_candidate : LocationReferencePoint → PointOnLine → Config → bool → Q;
  score_events : LocationReferencePoint → PointOnLine → Config → bool → list Event;
  shortest_path : Node → Node → (Line → bool) → Q → option (list Line);
  route_length : Route → Q
}.

(** Comparisons on numbers, as booleans. *)
Definition Qltb (a b : Q) : bool := negb (Qle_bool b a).
Definition Qgtb (a b : Q) : bool := Qltb b a.

(** ** Node classification *)

Section NodeClassification.
Context `{MapEnv}.

(** The two [unique_nodes.add] of one loop iteration. *)
Definition add_endpoints (unique_nodes : gset Node) (l : Line) : gset Node :=
  {[end_node l]} ∪ ({[start_node l]} ∪ unique_nodes).

Definition is_invalid_node (node : Node) : bool :=
  let incoming := incoming_lines node in
  let outgoing := outgoing_lines node in
  if (Nat.eqb (length incoming) 1 && Nat.eqb (length outgoing) 1)
     || (Nat.eqb (length incoming) 2 && Nat.eqb (length outgoing) 2)
  then
    let unique_nodes := foldl add_endpoints (foldl add_endpoints ∅ incoming) outgoing in
    bool_decide (size unique_nodes = 3)
  else false.

Definition is_valid_node (node : Node) : bool :=
  negb (is_invalid_node node).

End NodeClassification.

(** ** Candidate generation *)

Section Candidates.
Context `{MapEnv}.

(** The calls on the observer are made only when one is attached. *)
Definition notify (observer : bool) (events : list Event) : list Event :=
  if observer then events else [].

(** The block [if not is_last_lrp: ...] of [make_candidates]: the relative
    offset after the block, or [None] where the block returns. *)
Definition snap_not_last (config : Config) (l : Line) (point_on_line : PointOnLine)
    (reloff : Q) : option Q :=
  if Qle_bool (Qabs (distance_from_start point_on_line)) (candidate_threshold config)
     && is_valid_node (start_node l)
  then Some 0%Q
  else
    if Qle_bool (Qabs (distance_to_end point_on_line)) (candidate_threshold config)
       && is_valid_node (end_node l)
    then None
    else Some reloff.

(** The block [if is_last_lrp: ...]. *)
Definition snap_last (config : Config) (l : Line) (point_on_line : PointOnLine)
    (reloff : Q) : option Q :=
  if Qle_bool (Qabs (distance_to_end point_on_line)) (candidate_threshold config)
     && is_valid_node (end_node l)
  then Some 1%Q
  else
    if Qle_bool (distance_from_start point_on_line) (candidate_threshold config)
       && is_valid_node (start_node l)
    then None
    else Some reloff.

(** The rest of [make_candidates], from [candidate = Candidate(line, reloff)]
    on: the gates on road class, bearing and score. *)
Definition rate_candidate (lrp : LocationReferencePoint) (l : Line) (config : Config)
    (observer : bool) (is_last_lrp : bool) (reloff : Q) : list Candidate * list Event :=
  let candidate := mkPointOnLine l reloff in
  let bearing := compute_bearing candidate is_last_lrp (bear_dist config) in
  let bear_diff := angle_difference bearing (bear lrp) in
  if (frc_value (line_frc l) >? frc_value (tolerated_lfrc config (lfrcnp lrp)))%Z then
    ([], notify observer
           [on_candidate_rejected_frc lrp candidate (tolerated_lfrc config (lfrcnp lrp))])
  else if Qgtb (Qabs bear_diff) (max_bear_deviation config) then
    ([], notify observer
           [on_candidate_rejected_bearing lrp candidate bearing bear_diff
              (max_bear_deviation config)])
  else
    let scored :=
      mkCandidate candidate (score_lrp_candidate lrp candidate config is_last_lrp) in
    let scoring := notify observer (score_events lrp candidate config is_last_lrp) in
    if Qltb (score scored) (min_score config) then
      ([], scoring ++ notify observer [on_candidate_rejected lrp scored])
    else
      ([scored], scoring ++ notify observer [on_candidate_found lrp scored]).

(** [make_candidates]: the candidates the generator yields (none or one)
    and the calls it makes on the observer. *)
Definition make_candidates (lrp : LocationReferencePoint) (l : Line) (config : Config)
    (observer : bool) (is_last_lrp : bool) : list Candidate * list Event :=
  if Qeq_bool (geometry_length (geometry l)) 0 then ([], [])
  else
    let point_on_line := project l (coords lrp) in
    let reloff := relative_offset point_on_line in
    match (if negb is_last_lrp then snap_not_last config l point_on_line reloff
           else Some reloff) with
    | None => ([], [])
    | Some reloff =>
      match (if is_last_lrp then snap_last config l point_on_line reloff
             else Some reloff) with
      | None => ([], [])
      | Some reloff =>
        if (is_last_lrp && Qle_bool reloff 0) || (negb is_last_lrp && Qle_bool 1 reloff)
        then ([], [])
        else rate_candidate lrp l config observer is_last_lrp reloff
      end
    end.

(** The loop of [nominate_candidates] over the lines the reader returned. *)
Fixpoint nominate_lines (lrp : LocationReferencePoint) (lines : list Line) (config : Config)
    (observer : bool) (is_last_lrp : bool) : list Candidate * list Event :=
  match lines with
  | [] => ([], [])
  | l :: lines' =>
    let '(cs, evs) := make_candidates lrp l config observer is_last_lrp in
    let '(cs', evs') := nominate_lines lrp lines' config observer is_last_lrp in
    (cs ++ cs', evs ++ evs')
  end.

Definition nominate_candidates (lrp : LocationReferencePoint) (config : Config)
    (observer : bool) (is_last_lrp : bool) : list Candidate * list Event :=
  nominate_lines lrp (find_lines_close_to (coords lrp) (search_radius config))
    config observer is_last_lrp.

End Candidates.

(** ** Routes between two candidates *)

Section Routes.
Context `{MapEnv}.

Definition get_candidate_route (start dest : Candidate) (lfrc : FRC) (maxlen : Q)
    : option Route :=
  if (line_id (line start) =? line_id (line dest))%Z then
    Some (mkRoute start [] dest)
  else
    let linefilter := λ l : Line, (frc_value (line_frc l) <=? frc_value lfrc)%Z in
    match shortest_path (end_node (line start)) (start_node (line dest)) linefilter maxlen with
    | Some p => Some (mkRoute start p dest)
    | None => None
    end.

(** [handleCandidatePair]: the route or [None], and the calls made on the
    observer. A [Route] object is never falsy, so [not route] is the test
    for [None]. *)
Definition handleCandidatePair (lrps : LocationReferencePoint * LocationReferencePoint)
    (candidates : Candidate * Candidate) (observer : bool) (lowest_frc : FRC)
    (minlen maxlen : Q) : option Route * list Event :=
  let '(current, next_lrp) := lrps in
  let '(source, dest) := candidates in
  match get_candidate_route source dest lowest_frc maxlen with
  | None =>
    (None, notify observer
             [on_route_fail current next_lrp source dest "No path for candidate found"])
  | Some route =>
    let len := route_length route in
    let succeeded := notify observer [on_route_success current next_lrp source dest route] in
    if Qltb len minlen || Qgtb len maxlen then
      (None, succeeded ++ notify observer
         [on_route_fail_length current next_lrp source dest route len minlen maxlen;
          on_route_fail current next_lrp source dest
            "Shortest path deviation from DNP is too large"])
    else (Some route, succeeded)
  end.

End Routes.

(** ** The tail matcher *)

(** The state [match_tail] works on: the memoisation dictionary, which maps a
    key to a list of routes or to [None] (a recorded failure), and the trace
    of the calls made on the observer so far. *)
Record State := mkState {
  cache : gmap CacheKey (option (list Route));
  trace : list Event
}.

Definition emit (events : list Event) (st : State) : State :=
  mkState (cache st) (trace st ++ events).

(** [cache[key] = value] *)
Definition store (key : CacheKey) (value : option (list Route)) (st : State) : State :=
  mkState (<[key := value]> (cache st)) (trace st).

(** [itertools.product(candidates, next_candidates)] *)
Definition product (candidates next_candidates : list Candidate)
    : list (Candidate * Candidate) :=
  flat_map (λ c_from, map (λ c_to, (c_from, c_to)) next_candidates) candidates.

Definition pair_score (pair : Candidate * Candidate) : Q :=
  (score pair.1 + score pair.2)%Q.

(** [pairs.sort(key=..., reverse=True)]: a stable sort by descending key;
    pairs of equal key keep the order they had. *)
Fixpoint insert_pair (pair : Candidate * Candidate) (sorted : list (Candidate * Candidate))
    : list (Candidate * Candidate) :=
  match sorted with
  | [] => [pair]
  | q :: rest =>
    if Qltb (pair_score pair) (pair_score q) then q :: insert_pair pair rest
    else pair :: sorted
  end.

Definition sort_pairs (pairs : list (Candidate * Candidate)) : list (Candidate * Candidate) :=
  foldr insert_pair [] pairs.

(** The accepted distance to the next point. *)
Definition dnp_minlen (config : Config) (current : LocationReferencePoint) : Q :=
  ((1 - max_dnp_deviation config) * inject_Z (dnp current) - tolerated_dnp_dev config)%Q.

Definition dnp_maxlen (config : Config) (current : LocationReferencePoint) : Q :=
  ((1 + max_dnp_deviation config) * inject_Z (dnp current) + tolerated_dnp_dev config)%Q.

Section TailMatcher.
Context `{MapEnv}.

(** What follows the loop over the pairs when no pair matched. *)
Definition matching_failed (current next_lrp : LocationReferencePoint)
    (candidates next_candidates : list Candidate) (observer : bool) (st : State)
    : Result (list Route) * State :=
  let st := emit (notify observer
              [on_matching_fail current next_lrp candidates next_candidates
                 "No candidate pair matches"]) st in
  let st := match candidates with
            | [c] => store (KLrp current, c) None st
            | _ => st
            end in
  (Raise (LRDecodeError NoCandidatesLeft), st).

(** The loop [for (c_from, c_to) in pairs]. [recurse c_to st] is the
    recursive call [match_tail(next_lrp, [c_to], tail[1:], ..., depth+1, cache)]. *)
Fixpoint match_pairs (recurse : Candidate → State → Result (list Route) * State)
    (current next_lrp : LocationReferencePoint)
    (candidates next_candidates : list Candidate) (observer : bool)
    (lfrc : FRC) (minlen maxlen : Q) (last_lrp : bool)
    (pairs : list (Candidate * Candidate)) (st : State)
    : Result (list Route) * State :=
  match pairs with
  | [] => matching_failed current next_lrp candidates next_candidates observer st
  | (c_from, c_to) :: pairs' =>
    let continue := match_pairs recurse current next_lrp candidates next_candidates
                      observer lfrc minlen maxlen last_lrp pairs' in
    match cache st !! (KCand c_from, c_to) with
    | Some None => (Raise (LRDecodeError NoCandidatesLeft), st)
    | Some (Some v) => (Ok v, st)
    | None =>
      let '(route, events) :=
        handleCandidatePair (current, next_lrp) (c_from, c_to) observer lfrc minlen maxlen in
      let st := emit events st in
      match route with
      | None => continue (store (KCand c_from, c_to) None st)
      | Some route =>
        if last_lrp then (Ok [route], st)
        else
          match recurse c_to st with
          | (Ok rest, st) =>
            let full_route := route :: rest in
            (Ok full_route,
             match candidates with
             | [c] => store (KLrp current, c) (Some full_route) st
             | _ => st
             end)
          | (Raise (LRDecodeError _), st) => continue st
          | (Raise e, st) => (Raise e, st)
          end
      end
    end
  end.

(** [len(candidates) == 1 and (depth, candidates[0]) in cache]: where the
    test holds, the candidate [candidates[0]]. *)
Definition memo_hit (candidates : list Candidate) (depth : Z) (st : State)
    : option Candidate :=
  match candidates with
  | [c] => if bool_decide (is_Some (cache st !! (KDepth depth, c))) then Some c else None
  | _ => None
  end.

(** [match_tail]. [tail[0]] and, in the arguments of the logging call,
    [candidates[0]] raise [IndexError] on an empty list. *)
Fixpoint match_tail (current : LocationReferencePoint) (candidates : list Candidate)
    (tail : list LocationReferencePoint) (config : Config) (observer : bool)
    (depth : Z) (st : State) {struct tail} : Result (list Route) * State :=
  match memo_hit candidates depth st with
  | Some c =>
    match cache st !! (KLrp current, c) with
    | None => (Raise KeyError, st)
    | Some None => (Raise (LRDecodeError NoCandidatesLeft), st)
    | Some (Some v) => (Ok v, st)
    end
  | None =>
    let last_lrp := Nat.eqb (length tail) 1 in
    let minlen := dnp_minlen config current in
    let maxlen := dnp_maxlen config current in
    let lfrc := tolerated_lfrc config (lfrcnp current) in
    match tail with
    | [] => (Raise IndexError, st)
    | next_lrp :: tail' =>
      match candidates with
      | [] => (Raise IndexError, st)
      | _ :: _ =>
        let '(next_candidates, events) :=
          nominate_candidates next_lrp config observer last_lrp in
        let st := emit events st in
        match next_candidates with
        | [] =>
          (Raise (LRDecodeError (NoCandidatesFoundFor next_lrp)),
           emit (notify observer [on_no_candidates_found next_lrp]) st)
        | _ :: _ =>
          let st := emit (notify observer [on_candidates_found next_lrp next_candidates]) st in
          let pairs := sort_pairs (product candidates next_candidates) in
          match_pairs
            (λ c_to st', match_tail next_lrp [c_to] tail' config observer (depth + 1) st')
            current next_lrp candidates next_candidates observer lfrc minlen maxlen
            last_lrp pairs st
        end
      end
    end
  end.

(** A top-level call that leaves the [cache] argument to its default. The
    default value of a Python parameter is one object, created when the
    function is defined: every such call reads and mutates the same
    dictionary. [default_cache] is the content of that dictionary before
    the call; the call returns its content afterwards. *)
Definition match_tail_default (default_cache : gmap CacheKey (option (list Route)))
    (current : LocationReferencePoint) (candidates : list Candidate)
    (tail : list LocationReferencePoint) (config : Config) (observer : bool)
    : Result (list Route) * list Event * gmap CacheKey (option (list Route)) :=
  let '(result, st) :=
    match_tail current candidates tail config observer 0 (mkState default_cache []) in
  (result, trace st, cache st).

End TailMatcher.

(** A dictionary without an entry under a key [(depth, candidate)]. *)
Definition no_depth_key (m : gmap CacheKey (option (list Route))) : Prop :=
  ∀ (depth : Z) (c : Candidate), m !! (KDepth depth, c) = None.

(** ** A small map

    Five nodes and four lines: [line_a] runs from node 1 to node 2, where
    [line_b] (to node 3), [line_c] (to node 4) and the short [line_s] (to
    node 5) start. *)

Definition line_a : Line := mkLine 10 1 2 FRC3 SINGLE_CARRIAGEWAY (mkGeometry 100) 100.
Definition line_b : Line := mkLine 20 2 3 FRC3 SINGLE_CARRIAGEWAY (mkGeometry 1000) 1000.
Definition line_c : Line := mkLine 30 2 4 FRC3 SINGLE_CARRIAGEWAY (mkGeometry 100) 100.
Definition line_s : Line := mkLine 40 2 5 FRC3 SINGLE_CARRIAGEWAY (mkGeometry 10) 10.

Definition small_map_lines : list Line := [line_a; line_b; line_c; line_s].

(** The length of a route as the sum of the part of the first line after the
    start point, the lines of the path and the part of the last line before
    the end point; between two points of one line, the distance between them. *)
Definition partial_route_length (r : Route) : Q :=
  if (line_id (line (route_start r)) =? line_id (line (route_end r)))%Z then
    ((relative_offset (route_end r) - relative_offset (route_start r))
       * line_length (line (route_start r)))%Q
  else
    ((1 - relative_offset (route_start r)) * line_length (line (route_start r))
     + foldr (λ l acc, line_length l + acc) 0 (path r)
     + relative_offset (route_end r) * line_length (line (route_end r)))%Q.

(** A reader over [small_map_lines]: around longitude 0 it finds no line,
    elsewhere it finds [line_c] and [line_b]. Every point projects onto a
    line at the relative offset [reloff]; a path exists only between a node
    and itself. *)
Definition small_map_with (reloff : Q) : MapEnv := {|
  coords := λ lrp, (lon lrp, lat lrp);
  find_lines_close_to := λ c _, if Qeq_bool c.1 0 then [] else [line_c; line_b];
  incoming_lines := λ n, filter (λ l, end_node l = n) small_map_lines;
  outgoing_lines := λ n, filter (λ l, start_node l = n) small_map_lines;
  project := λ l _, mkPointOnLine l reloff;
  distance_from_start := λ p, (relative_offset p * line_length (line p))%Q;
  distance_to_end := λ p, ((1 - relative_offset p) * line_length (line p))%Q;
  compute_bearing := λ _ _ _, 0%Q;
  angle_difference := λ a b, (a - inject_Z b)%Q;
  score_lrp_candidate :=
    λ _ p _ _, if (line_id (line p) =? 20)%Z then (9 # 10)%Q else (8 # 10)%Q;
  score_events := λ _ _ _ _, [];
  shortest_path := λ s d _ _, if (s =? d)%Z then Some [] else None;
  route_length := partial_route_length
|}.

Definition small_map : MapEnv := small_map_with (1 # 2).

Definition small_config : Config := {|
  search_radius := 100;
  candidate_threshold := 10;
  max_bear_deviation := 45;
  bear_dist := 20;
  tolerated_lfrc := λ f, f;
  max_dnp_deviation := 1 # 10;
  tolerated_dnp_dev := 0;
  min_score := 3 # 10
|}.

(** Three location reference points: the first lies 150 m before the second,
    the third lies where the reader finds no line. *)
Definition lrp_first : LocationReferencePoint :=
  mkLRP 1 1 FRC3 SINGLE_CARRIAGEWAY 0 FRC3 150.
Definition lrp_last : LocationReferencePoint :=
  mkLRP 2 2 FRC3 SINGLE_CARRIAGEWAY 0 FRC7 0.
Definition lrp_nowhere : LocationReferencePoint :=
  mkLRP 0 0 FRC3 SINGLE_CARRIAGEWAY 0 FRC7 0.

(** The candidate of [lrp_first] at the start of [line_a], and the two
    candidates of [lrp_last] in the middle of [line_b] and of [line_c]. *)
Definition cand_a : Candidate := mkCandidate (mkPointOnLine line_a 0) 1.
Definition cand_b : Candidate := mkCandidate (mkPointOnLine line_b (1 # 2)) (9 # 10).
Definition cand_c : Candidate := mkCandidate (mkPointOnLine line_c (1 # 2)) (8 # 10).

Definition route_a_b : Route := mkRoute cand_a [] cand_b.
Definition route_a_c : Route := mkRoute cand_a [] cand_c.

(** A line whose geometry is a single point. *)
Definition line_point : Line := mkLine 60 2 2 FRC3 SINGLE_CARRIAGEWAY (mkGeometry 0) 0.

(** A line whose stored length is 0 m although its geometry is not a point. *)
Definition line_z : Line := mkLine 50 2 6 FRC3 SINGLE_CARRIAGEWAY (mkGeometry (1 # 1000)) 0.

(** ** Node classification in the words of the specification *)

(** The union of the end points of a list of lines. *)
Definition endpoint_nodes (lines : list Line) : gset Node :=
  list_to_set (flat_map (λ l, [start_node l; end_node l]) lines).

(** The lines in and out of a node continue one road in both directions:
    every line into the node has a line out of it that runs the opposite way,
    and every line out of it has a line into it that runs the opposite way. *)
Definition opposite (l l' : Line) : bool :=
  (start_node l =? end_node l')%Z && (end_node l =? start_node l')%Z.

Definition same_direction_pattern (incoming outgoing : list Line) : bool :=
  forallb (λ i, existsb (opposite i) outgoing) incoming
  && forallb (λ o, existsb (opposite o) incoming) outgoing.

(** A node is invalid with one line in and one out whose end points are three
    nodes, or with two lines in and two out that show the same-direction
    pattern and whose end points are three nodes. *)
Definition spec_is_invalid_node `{MapEnv} (node : Node) : bool :=
  let incoming := incoming_lines node in
  let outgoing := outgoing_lines node in
  (Nat.eqb (length incoming) 1 && Nat.eqb (length outgoing) 1
   && bool_decide (size (endpoint_nodes (incoming ++ outgoing)) = 3))
  || (Nat.eqb (length incoming) 2 && Nat.eqb (length outgoing) 2
      && same_direction_pattern incoming outgoing
      && bool_decide (size (endpoint_nodes (incoming ++ outgoing)) = 3)).

(** A map where two parallel one-way lines run from node 1 into node 2 and
    two parallel one-way lines run from node 2 on to node 3. *)
Definition carriageway_lines : list Line :=
  [ mkLine 11 1 2 FRC1 MULTIPLE_CARRIAGEWAY (mkGeometry 100) 100;
    mkLine 12 1 2 FRC1 MULTIPLE_CARRIAGEWAY (mkGeometry 100) 100;
    mkLine 21 2 3 FRC1 MULTIPLE_CARRIAGEWAY (mkGeometry 100) 100;
    mkLine 22 2 3 FRC1 MULTIPLE_CARRIAGEWAY (mkGeometry 100) 100 ].

Definition carriageway_map : MapEnv := {|
  coords := λ lrp, (lon lrp, lat lrp);
  find_lines_close_to := λ _ _, carriageway_lines;
  incoming_lines := λ n, filter (λ l, end_node l = n) carriageway_lines;
  outgoing_lines := λ n, filter (λ l, start_node l = n) carriageway_lines;
  project := λ l _, mkPointOnLine l (1 # 2);
  distance_from_start := λ p, (relative_offset p * line_length (line p))%Q;
  distance_to_end := λ p, ((1 - relative_offset p) * line_length (line p))%Q;
  compute_bearing := λ _ _ _, 0%Q;
  angle_difference := λ a b, (a - inject_Z b)%Q;
  score_lrp_candidate := λ _ _ _ _, 1%Q;
  score_events := λ _ _ _ _, [];
  shortest_path := λ s d _ _, if (s =? d)%Z then Some [] else None;
  route_length := partial_route_length
|}.

(** ** Dictionaries as [match_tail] fills them *)

(** Under a pair key [(c_from, c_to)] only failures are recorded. *)
Definition pair_failures_only (m : gmap CacheKey (option (list Route))) : Prop :=
  ∀ (c_from c_to : Candidate) (v : option (list Route)),
    m !! (KCand c_from, c_to) = Some v → v = None.

(** A dictionary with the entries [match_tail] itself makes: none under a
    depth key, failures only under pair keys. The empty dictionary is one. *)
Definition decoder_cache (m : gmap CacheKey (option (list Route))) : Prop :=
  no_depth_key m ∧ pair_failures_only m.

(** ** Decoded route lists *)

(** [decoded config observer current start tail routes]: the list [routes]
    has one route per point of [tail]; the first leaves the candidate [start]
    of [current], each route ends at a candidate nominated for the next point
    and is the route [get_candidate_route] finds under the limits of the point
    it leaves, its length within the accepted distance to the next point; the
    following route leaves the candidate the route ends at. *)
Fixpoint decoded `{MapEnv} (config : Config) (observer : bool)
    (current : LocationReferencePoint) (start : Candidate)
    (tail : list LocationReferencePoint) (routes : list Route) : Prop :=
  match tail, routes with
  | [], [] => True
  | next_lrp :: tail', r :: routes' =>
    route_start r = start
    ∧ route_end r
      ∈ (nominate_candidates next_lrp config observer (Nat.eqb (length tail) 1)).1
    ∧ get_candidate_route start (route_end r) (tolerated_lfrc config (lfrcnp current))
        (dnp_maxlen config current) = Some r
    ∧ (dnp_minlen config current <= route_length r)%Q
    ∧ (route_length r <= dnp_maxlen config current)%Q
    ∧ decoded config observer next_lrp (route_end r) tail' routes'
  | _, _ => False
  end.

(** ** A map of two roads

    A two-way road through the nodes 1, 2 and 3, each direction a line of its
    own, and a one-way road through the nodes 10, 11, 12 and 13. *)

Definition road_12 : Line := mkLine 1 1 2 FRC2 SINGLE_CARRIAGEWAY (mkGeometry 100) 100.
Definition road_21 : Line := mkLine 2 2 1 FRC2 SINGLE_CARRIAGEWAY (mkGeometry 100) 100.
Definition road_23 : Line := mkLine 3 2 3 FRC2 SINGLE_CARRIAGEWAY (mkGeometry 100) 100.
Definition road_32 : Line := mkLine 4 3 2 FRC2 SINGLE_CARRIAGEWAY (mkGeometry 100) 100.
Definition way_a : Line := mkLine 101 10 11 FRC2 SINGLE_CARRIAGEWAY (mkGeometry 100) 100.
Definition way_b : Line := mkLine 102 11 12 FRC4 SINGLE_CARRIAGEWAY (mkGeometry 100) 100.
Definition way_c : Line := mkLine 103 12 13 FRC2 SINGLE_CARRIAGEWAY (mkGeometry 100) 100.

Definition road_lines : list Line :=
  [road_12; road_21; road_23; road_32; way_a; way_b; way_c].

(** The path search of this map knows the path from node 11 to node 12 over
    [way_b], which it takes only where the line filter accepts [way_b]. *)
Definition road_map : MapEnv := {|
  coords := λ lrp, (lon lrp, lat lrp);
  find_lines_close_to := λ _ _, road_lines;
  incoming_lines := λ n, filter (λ l, end_node l = n) road_lines;
  outgoing_lines := λ n, filter (λ l, start_node l = n) road_lines;
  project := λ l _, mkPointOnLine l (1 # 20);
  distance_from_start := λ p, (relative_offset p * line_length (line p))%Q;
  distance_to_end := λ p, ((1 - relative_offset p) * line_length (line p))%Q;
  compute_bearing := λ _ _ _, 0%Q;
  angle_difference := λ a b, (a - inject_Z b)%Q;
  score_lrp_candidate := λ _ _ _ _, 1%Q;
  score_events := λ _ _ _ _, [];
  shortest_path := λ s d linefilter _,
    if (s =? d)%Z then Some []
    else if (s =? 11)%Z && (d =? 12)%Z && linefilter way_b then Some [way_b]
    else None;
  route_length := partial_route_length
|}.

Definition cand_way_a : Candidate := mkCandidate (mkPointOnLine way_a (1 # 2)) 1.
Definition cand_way_c : Candidate := mkCandidate (mkPointOnLine way_c (1 # 2)) 1.

(** A point between [lrp_first] and [lrp_last], which the next point
    follows at once. *)
Definition lrp_mid : LocationReferencePoint :=
  mkLRP 3 3 FRC3 SINGLE_CARRIAGEWAY 0 FRC3 0.

Definition route_c_c : Route := mkRoute cand_c [] cand_c.

(** The order of the sorted pairs: the score sum does not increase. *)
Definition score_descending (p q : Candidate * Candidate) : Prop :=
  (pair_score q <= pair_score p)%Q.

(** * Properties *)

(** ** Comparisons *)

Lemma Qltb_lt (a b : Q) : Qltb a b = true ↔ (a < b)%Q.
Proof.
  unfold Qltb. rewrite negb_true_iff. split.
  - intros Hle. apply Qnot_le_lt. intros Hba.
    apply Qle_bool_iff in Hba. congruence.
  - intros Hlt. destruct (Qle_bool b a) eqn:Hle; [|done].
    apply Qle_bool_iff in Hle. exfalso. by apply (Qlt_not_le a b).
Qed.

Lemma Qltb_ge (a b : Q) : Qltb a b = false ↔ (b <= a)%Q.
Proof.
  unfold Qltb. rewrite negb_false_iff. apply Qle_bool_iff.
Qed.

Lemma Qle_bool_abs_nonneg (d t : Q) :
  (0 <= d)%Q → Qle_bool (Qabs d) t = Qle_bool d t.
Proof.
  intros Hd.
  assert (Hrw : Qle_bool (Qabs d) t = true ↔ Qle_bool d t = true).
  { rewrite !Qle_bool_iff, (Qabs_pos d Hd). done. }
  destruct (Qle_bool (Qabs d) t), (Qle_bool d t); try done.
  - symmetry. by apply Hrw.
  - by apply Hrw.
Qed.

Lemma Qle_bool_abs_false (d t : Q) :
  Qle_bool d t = false → Qle_bool (Qabs d) t = false.
Proof.
  intros Hd. destruct (Qle_bool (Qabs d) t) eqn:Habs; [|done].
  apply Qle_bool_iff in Habs.
  assert (Hle : Qle_bool d t = true).
  { apply Qle_bool_iff. eapply Qle_trans; [apply Qle_Qabs | done]. }
  congruence.
Qed.

(** ** Routes between two candidates *)

Section RouteProperties.
Context `{MapEnv}.

(** What [handleCandidatePair] answers, by the outcome of the route search
    and the two length tests. *)
Lemma handleCandidatePair_found current next_lrp source dest observer lowest_frc
    minlen maxlen route :
  get_candidate_route source dest lowest_frc maxlen = Some route →
  handleCandidatePair (current, next_lrp) (source, dest) observer lowest_frc minlen maxlen
  = if Qltb (route_length route) minlen || Qgtb (route_length route) maxlen
    then (None,
          notify observer [on_route_success current next_lrp source dest route]
          ++ notify observer
               [on_route_fail_length current next_lrp source dest route
                  (route_length route) minlen maxlen;
                on_route_fail current next_lrp source dest
                  "Shortest path deviation from DNP is too large"])
    else (Some route,
          notify observer [on_route_success current next_lrp source dest route]).
Proof. intros Hroute. unfold handleCandidatePair. by rewrite Hroute. Qed.

Lemma handleCandidatePair_not_found current next_lrp source dest observer lowest_frc
    minlen maxlen :
  get_candidate_route source dest lowest_frc maxlen = None →
  handleCandidatePair (current, next_lrp) (source, dest) observer lowest_frc minlen maxlen
  = (None, notify observer
             [on_route_fail current next_lrp source dest "No path for candidate found"]).
Proof. intros Hroute. unfold handleCandidatePair. by rewrite Hroute. Qed.

Lemma outside_envelope (len minlen maxlen : Q) :
  Qltb len minlen || Qgtb len maxlen = true ↔ (len < minlen)%Q ∨ (maxlen < len)%Q.
Proof. unfold Qgtb. by rewrite orb_true_iff, !Qltb_lt. Qed.

Lemma inside_envelope (len minlen maxlen : Q) :
  Qltb len minlen || Qgtb len maxlen = false ↔ (minlen <= len)%Q ∧ (len <= maxlen)%Q.
Proof. unfold Qgtb. by rewrite orb_false_iff, !Qltb_ge. Qed.

(** C4. With the bounds [minlen] and [maxlen] that [match_tail] computes
    from the configuration and the distance to the next point of [current],
    [handleCandidatePair] returns the route found by [get_candidate_route]
    exactly when its length lies in [[minlen, maxlen]]; it returns [None]
    when the length of the found route is below [minlen] or above [maxlen],
    and when no route was found. *)
Theorem handleCandidatePair_dnp_envelope (config : Config)
    (current next_lrp : LocationReferencePoint) (source dest : Candidate)
    (observer : bool) (lowest_frc : FRC) :
  let minlen :=
    ((1 - max_dnp_deviation config) * inject_Z (dnp current) - tolerated_dnp_dev config)%Q in
  let maxlen :=
    ((1 + max_dnp_deviation config) * inject_Z (dnp current) + tolerated_dnp_dev config)%Q in
  let returned :=
    (handleCandidatePair (current, next_lrp) (source, dest) observer lowest_frc
       (dnp_minlen config current) (dnp_maxlen config current)).1 in
  (∀ route, returned = Some route →
     (minlen <= route_length route)%Q ∧ (route_length route <= maxlen)%Q)
  ∧ match get_candidate_route source dest lowest_frc (dnp_maxlen config current) with
    | Some route =>
      (returned = Some route
       ∧ (minlen <= route_length route)%Q ∧ (route_length route <= maxlen)%Q)
      ∨ (returned = None
         ∧ ((route_length route < minlen)%Q ∨ (maxlen < route_length route)%Q))
    | None => returned = None
    end.
Proof.
  intros minlen maxlen returned. subst returned.
  change (dnp_minlen config current) with minlen.
  change (dnp_maxlen config current) with maxlen.
  destruct (get_candidate_route source dest lowest_frc maxlen) as [found|] eqn:Hroute.
  - rewrite (handleCandidatePair_found _ _ _ _ _ _ _ _ _ Hroute).
    destruct (Qltb (route_length found) minlen || Qgtb (route_length found) maxlen)
      eqn:Hlen; simpl.
    + apply outside_envelope in Hlen. split; [done|]. by right.
    + apply inside_envelope in Hlen. split.
      * intros route [= <-]. done.
      * by left.
  - rewrite (handleCandidatePair_not_found _ _ _ _ _ _ _ _ Hroute). simpl. done.
Qed.

(** C10. With an observer attached, whenever [get_candidate_route] finds a
    route, the first call [handleCandidatePair] makes on the observer is
    [on_route_success]; a route whose length is below [minlen] or above
    [maxlen] is then rejected ([None]) after the three calls
    [on_route_success], [on_route_fail_length], [on_route_fail], in that
    order. *)
Theorem handleCandidatePair_success_before_length_check
    (current next_lrp : LocationReferencePoint) (source dest : Candidate)
    (lowest_frc : FRC) (minlen maxlen : Q) (route : Route) :
  get_candidate_route source dest lowest_frc maxlen = Some route →
  (∃ later,
     (handleCandidatePair (current, next_lrp) (source, dest) true lowest_frc
        minlen maxlen).2
     = on_route_success current next_lrp source dest route :: later)
  ∧ ((route_length route < minlen)%Q ∨ (maxlen < route_length route)%Q →
     handleCandidatePair (current, next_lrp) (source, dest) true lowest_frc minlen maxlen
     = (None,
        [on_route_success current next_lrp source dest route;
         on_route_fail_length current next_lrp source dest route
           (route_length route) minlen maxlen;
         on_route_fail current next_lrp source dest
           "Shortest path deviation from DNP is too large"])).
Proof.
  intros Hroute.
  rewrite (handleCandidatePair_found _ _ _ _ _ _ _ _ _ Hroute). split.
  - destruct (Qltb (route_length route) minlen || Qgtb (route_length route) maxlen);
      simpl; eauto.
  - intros Hout. apply outside_envelope in Hout. by rewrite Hout.
Qed.

End RouteProperties.

(** C6. For two candidates on lines of equal [line_id], [get_candidate_route]
    returns the route from [start] to [dest] with an empty list of lines
    between them, whatever [lfrc] and [maxlen] are; the answer is the same
    over every map and every path search, so the search is not consulted. *)
Theorem get_candidate_route_same_line (E : MapEnv) (start dest : Candidate)
    (lfrc : FRC) (maxlen : Q) :
  line_id (line start) = line_id (line dest) →
  @get_candidate_route E start dest lfrc maxlen = Some (mkRoute start [] dest)
  ∧ ∀ E' : MapEnv,
      @get_candidate_route E' start dest lfrc maxlen
      = @get_candidate_route E start dest lfrc maxlen.
Proof.
  intros Hid.
  assert (Hsame : ∀ E0 : MapEnv,
            @get_candidate_route E0 start dest lfrc maxlen = Some (mkRoute start [] dest)).
  { intros E0. unfold get_candidate_route. rewrite Hid, Z.eqb_refl. done. }
  split; [apply Hsame|]. intros E'. by rewrite !Hsame.
Qed.

(** ** Node classification *)

Section NodeProperties.
Context `{MapEnv}.

Lemma foldl_add_endpoints (lines : list Line) (seen : gset Node) :
  foldl add_endpoints seen lines = seen ∪ endpoint_nodes lines.
Proof.
  revert seen. induction lines as [|l lines IH]; intros seen.
  - unfold endpoint_nodes. simpl. set_solver.
  - simpl. rewrite IH. unfold add_endpoints, endpoint_nodes. simpl. set_solver.
Qed.

Lemma endpoint_nodes_app (lines lines' : list Line) :
  endpoint_nodes (lines ++ lines') = endpoint_nodes lines ∪ endpoint_nodes lines'.
Proof.
  unfold endpoint_nodes. rewrite flat_map_app, list_to_set_app_L. done.
Qed.

Lemma unique_nodes_endpoint_nodes (incoming outgoing : list Line) :
  foldl add_endpoints (foldl add_endpoints ∅ incoming) outgoing
  = endpoint_nodes (incoming ++ outgoing).
Proof.
  rewrite !foldl_add_endpoints, endpoint_nodes_app. set_solver.
Qed.

(** C7, as the code has it. [is_invalid_node] answers true exactly for a
    node with one line in and one line out, or with two lines in and two
    lines out, where the end points of those lines are three nodes; no
    further pattern is required of the two-in two-out case. Every other
    node is valid, and [is_valid_node] is the negation of
    [is_invalid_node]. *)
Theorem is_invalid_node_iff (node : Node) :
  (is_invalid_node node = true ↔
     ((length (incoming_lines node) = 1 ∧ length (outgoing_lines node) = 1)
      ∨ (length (incoming_lines node) = 2 ∧ length (outgoing_lines node) = 2))
     ∧ size (endpoint_nodes (incoming_lines node ++ outgoing_lines node)) = 3)
  ∧ is_valid_node node = negb (is_invalid_node node).
Proof.
  split; [|done].
  unfold is_invalid_node. rewrite unique_nodes_endpoint_nodes.
  destruct ((Nat.eqb (length (incoming_lines node)) 1
             && Nat.eqb (length (outgoing_lines node)) 1)
            || (Nat.eqb (length (incoming_lines node)) 2
                && Nat.eqb (length (outgoing_lines node)) 2)) eqn:Hcount.
  - rewrite bool_decide_eq_true.
    apply orb_true_iff in Hcount.
    rewrite !andb_true_iff, !Nat.eqb_eq in Hcount. tauto.
  - apply orb_false_iff in Hcount. destruct Hcount as [H11 H22].
    split; [done|]. intros [[[Hi Ho]|[Hi Ho]] _].
    + rewrite Hi, Ho in H11. done.
    + rewrite Hi, Ho in H22. done.
Qed.

End NodeProperties.

(** C7, as stated: the same-direction pattern is not required. At node 2 of
    [carriageway_map] two parallel lines arrive from node 1 and two parallel
    lines leave for node 3; no line runs back, so the lines do not continue a
    road in both directions, yet the end points are three nodes and the code
    classifies the node as invalid. *)
Lemma is_invalid_node_without_pattern :
  ¬ (∀ (E : MapEnv) (node : Node),
       @is_invalid_node E node = @spec_is_invalid_node E node).
Proof.
  intros Hsame. specialize (Hsame carriageway_map 2%Z).
  vm_compute in Hsame. discriminate Hsame.
Qed.

(** ** Candidate generation *)

Section CandidateProperties.
Context `{MapEnv}.

Lemma rate_candidate_elem lrp l config observer is_last_lrp reloff (c : Candidate) :
  c ∈ (rate_candidate lrp l config observer is_last_lrp reloff).1 →
  line c = l ∧ relative_offset c = reloff.
Proof.
  unfold rate_candidate.
  repeat match goal with
         | |- context [if ?b then _ else _] => destruct b
         end; simpl; intros Hc.
  - by apply elem_of_nil in Hc.
  - by apply elem_of_nil in Hc.
  - by apply elem_of_nil in Hc.
  - apply list_elem_of_singleton in Hc. by subst c.
Qed.

(** C9, as the code has it. A line whose geometry has length zero gives no
    candidate and no call on the observer, for every location reference
    point, over every map: the projection is not consulted. *)
Theorem make_candidates_degenerate_geometry lrp l config observer is_last_lrp :
  (geometry_length (geometry l) == 0)%Q →
  make_candidates lrp l config observer is_last_lrp = ([], []).
Proof.
  intros Hzero. unfold make_candidates.
  apply Qeq_bool_iff in Hzero. by rewrite Hzero.
Qed.

(** C5. Let [d0] and [d1] be the distances of the projection from the start
    and to the end of the line, both non-negative. For a location reference
    point that is not the last: if [d0] is at most the candidate threshold
    and the start node is valid, every candidate produced lies at relative
    offset 0 (the line is rated at offset 0); otherwise, if [d1] is at most
    the threshold and the end node is valid, nothing is produced. For the
    last point symmetrically: offset 1 near a valid end node, otherwise
    nothing near a valid start node. *)
Theorem make_candidates_snap_or_discard lrp l config observer :
  let p := project l (coords lrp) in
  let near_start :=
    (distance_from_start p <= candidate_threshold config)%Q
    ∧ is_valid_node (start_node l) = true in
  let near_end :=
    (distance_to_end p <= candidate_threshold config)%Q
    ∧ is_valid_node (end_node l) = true in
  (0 <= distance_from_start p)%Q →
  (0 <= distance_to_end p)%Q →
  (near_start →
     (Qeq_bool (geometry_length (geometry l)) 0 = false →
      make_candidates lrp l config observer false
      = rate_candidate lrp l config observer false 0)
     ∧ ∀ c : Candidate, c ∈ (make_candidates lrp l config observer false).1 →
         line c = l ∧ relative_offset c = 0%Q)
  ∧ (¬ near_start → near_end →
     make_candidates lrp l config observer false = ([], []))
  ∧ (near_end →
     (Qeq_bool (geometry_length (geometry l)) 0 = false →
      make_candidates lrp l config observer true
      = rate_candidate lrp l config observer true 1)
     ∧ ∀ c : Candidate, c ∈ (make_candidates lrp l config observer true).1 →
         line c = l ∧ relative_offset c = 1%Q)
  ∧ (¬ near_end → near_start →
     make_candidates lrp l config observer true = ([], [])).
Proof.
  intros p near_start near_end Hd0 Hd1.
  assert (Hstart : Qle_bool (Qabs (distance_from_start p)) (candidate_threshold config)
                   && is_valid_node (start_node l) = true ↔ near_start).
  { rewrite (Qle_bool_abs_nonneg _ _ Hd0), andb_true_iff, Qle_bool_iff. done. }
  assert (Hstart' : Qle_bool (distance_from_start p) (candidate_threshold config)
                    && is_valid_node (start_node l) = true ↔ near_start).
  { rewrite andb_true_iff, Qle_bool_iff. done. }
  assert (Hend : Qle_bool (Qabs (distance_to_end p)) (candidate_threshold config)
                 && is_valid_node (end_node l) = true ↔ near_end).
  { rewrite (Qle_bool_abs_nonneg _ _ Hd1), andb_true_iff, Qle_bool_iff. done. }
  unfold make_candidates, snap_not_last, snap_last. fold p.
  destruct (Qeq_bool (geometry_length (geometry l)) 0) eqn:Hgeo; simpl.
  { repeat split; try done; intros; by match goal with Hc : _ ∈ [] |- _ => apply elem_of_nil in Hc end. }
  split; [|split; [|split]].
  - intros Hnear. apply Hstart in Hnear. rewrite Hnear. simpl.
    split; [done|]. intros c Hc. by apply rate_candidate_elem in Hc.
  - intros Hnot Hnear.
    destruct (Qle_bool (Qabs (distance_from_start p)) (candidate_threshold config)
              && is_valid_node (start_node l)) eqn:Hs.
    + exfalso. apply Hnot. by apply Hstart.
    + apply Hend in Hnear. by rewrite Hnear.
  - intros Hnear. apply Hend in Hnear. rewrite Hnear. simpl.
    split; [done|]. intros c Hc. by apply rate_candidate_elem in Hc.
  - intros Hnot Hnear.
    destruct (Qle_bool (Qabs (distance_to_end p)) (candidate_threshold config)
              && is_valid_node (end_node l)) eqn:He.
    + exfalso. apply Hnot. by apply Hend.
    + apply Hstart' in Hnear. by rewrite Hnear.
Qed.

End CandidateProperties.

(** ** The tail matcher *)

Section TailMatcherProperties.
Context `{MapEnv}.

(** *** Keys under which [match_tail] stores

    [match_tail] stores under keys headed by a candidate or by a location
    reference point only. A dictionary that starts without depth-headed keys,
    as the empty one does, never gets one, and on such a dictionary the memo
    test at the top of [match_tail] never succeeds. *)

Lemma no_depth_key_empty : no_depth_key ∅.
Proof. intros depth c. apply lookup_empty. Qed.

Lemma no_depth_key_store_lrp lrp c v st :
  no_depth_key (cache st) → no_depth_key (cache (store (KLrp lrp, c) v st)).
Proof.
  intros Hst depth c'. unfold store. simpl.
  rewrite lookup_insert_ne; [apply Hst | congruence].
Qed.

Lemma no_depth_key_store_cand c_from c_to v st :
  no_depth_key (cache st) → no_depth_key (cache (store (KCand c_from, c_to) v st)).
Proof.
  intros Hst depth c'. unfold store. simpl.
  rewrite lookup_insert_ne; [apply Hst | congruence].
Qed.

Lemma memo_hit_no_depth_key candidates depth st :
  no_depth_key (cache st) → memo_hit candidates depth st = None.
Proof.
  intros Hst. unfold memo_hit.
  destruct candidates as [|c [|c' candidates]]; try done.
  rewrite (Hst depth c). rewrite bool_decide_eq_false_2; [done|].
  intros [v Hv]. discriminate Hv.
Qed.




(** C8. When the memo lookup at the top of [match_tail] does not answer and
    [nominate_candidates] yields no candidate for the next point [tail[0]],
    [match_tail] raises [LRDecodeError] and returns no route list; the calls
    on the observer are those of the nomination followed, when an observer
    is attached, by [on_no_candidates_found next_lrp], and the memoisation
    dictionary is left as it was. *)
Theorem match_tail_no_candidates current (c : Candidate) (candidates : list Candidate)
    next_lrp (tail' : list LocationReferencePoint) config observer depth st events :
  memo_hit (c :: candidates) depth st = None →
  nominate_candidates next_lrp config observer (Nat.eqb (length (next_lrp :: tail')) 1)
  = ([], events) →
  match_tail current (c :: candidates) (next_lrp :: tail') config observer depth st
  = (Raise (LRDecodeError (NoCandidatesFoundFor next_lrp)),
     mkState (cache st)
       (trace st ++ events ++ notify observer [on_no_candidates_found next_lrp])).
Proof.
  intros Hmemo Hnominate. cbn [match_tail].
  rewrite Hmemo, Hnominate. unfold emit. simpl. by rewrite <- app_assoc.
Qed.

End TailMatcherProperties.

(** ** The properties on the small map *)

Lemma handleCandidatePair_dnp_envelope_witness :
  ((1 - (1 # 10)) * inject_Z 150 - 0 <= @route_length small_map route_a_c)%Q
  ∧ (@route_length small_map route_a_c <= (1 + (1 # 10)) * inject_Z 150 + 0)%Q.
Proof.
  pose proof (@handleCandidatePair_dnp_envelope small_map small_config
                lrp_first lrp_last cand_a cand_c false FRC3) as Henvelope.
  cbv zeta in Henvelope. destruct Henvelope as [Hreturned _].
  apply (Hreturned route_a_c). vm_compute. reflexivity.
Defined.

Lemma handleCandidatePair_success_before_length_check_witness :
  @handleCandidatePair small_map (lrp_first, lrp_last) (cand_a, cand_b) true FRC3 135 165
  = (None,
     [on_route_success lrp_first lrp_last cand_a cand_b route_a_b;
      on_route_fail_length lrp_first lrp_last cand_a cand_b route_a_b
        (@route_length small_map route_a_b) 135 165;
      on_route_fail lrp_first lrp_last cand_a cand_b
        "Shortest path deviation from DNP is too large"]).
Proof.
  apply (@handleCandidatePair_success_before_length_check small_map
           lrp_first lrp_last cand_a cand_b FRC3 135 165 route_a_b).
  - reflexivity.
  - right. vm_compute. reflexivity.
Defined.

Lemma get_candidate_route_same_line_witness :
  @get_candidate_route small_map cand_a (mkCandidate (mkPointOnLine line_a (1 # 2)) 1) FRC0 0
  = Some (mkRoute cand_a [] (mkCandidate (mkPointOnLine line_a (1 # 2)) 1)).
Proof.
  apply (get_candidate_route_same_line small_map cand_a
           (mkCandidate (mkPointOnLine line_a (1 # 2)) 1) FRC0 0).
  reflexivity.
Defined.

Lemma match_tail_no_candidates_witness :
  @match_tail small_map lrp_first [cand_a] [lrp_nowhere] small_config true 0 (mkState ∅ [])
  = (Raise (LRDecodeError (NoCandidatesFoundFor lrp_nowhere)),
     mkState ∅ [on_no_candidates_found lrp_nowhere]).
Proof.
  apply (@match_tail_no_candidates small_map lrp_first cand_a [] lrp_nowhere []
           small_config true 0 (mkState ∅ []) []).
  - reflexivity.
  - reflexivity.
Defined.

Lemma make_candidates_snap_or_discard_witness :
  @make_candidates small_map lrp_first line_s small_config true false
  = @rate_candidate small_map lrp_first line_s small_config true false 0
  ∧ @make_candidates small_map lrp_last line_s small_config true true
    = @rate_candidate small_map lrp_last line_s small_config true true 1
  ∧ @make_candidates (small_map_with (19 # 20)) lrp_first line_c small_config true false
    = ([], [])
  ∧ @make_candidates (small_map_with (1 # 20)) lrp_last line_c small_config true true
    = ([], []).
Proof.
  split; [|split; [|split]].
  - destruct (@make_candidates_snap_or_discard small_map lrp_first line_s small_config true)
      as (Hsnap & _); [vm_compute; discriminate | vm_compute; discriminate |].
    apply Hsnap.
    + split; [vm_compute; discriminate | reflexivity].
    + reflexivity.
  - destruct (@make_candidates_snap_or_discard small_map lrp_last line_s small_config true)
      as (_ & _ & Hsnap & _); [vm_compute; discriminate | vm_compute; discriminate |].
    apply Hsnap.
    + split; [vm_compute; discriminate | reflexivity].
    + reflexivity.
  - destruct (@make_candidates_snap_or_discard (small_map_with (19 # 20)) lrp_first line_c
                small_config true)
      as (_ & Hdiscard & _); [vm_compute; discriminate | vm_compute; discriminate |].
    apply Hdiscard.
    + intros [Hnear _]. vm_compute in Hnear. by apply Hnear.
    + split; [vm_compute; discriminate | reflexivity].
  - destruct (@make_candidates_snap_or_discard (small_map_with (1 # 20)) lrp_last line_c
                small_config true)
      as (_ & _ & _ & Hdiscard); [vm_compute; discriminate | vm_compute; discriminate |].
    apply Hdiscard.
    + intros [Hnear _]. vm_compute in Hnear. by apply Hnear.
    + split; [vm_compute; discriminate | reflexivity].
Defined.

Lemma make_candidates_degenerate_geometry_witness :
  @make_candidates small_map lrp_first line_point small_config true false = ([], []).
Proof.
  apply (@make_candidates_degenerate_geometry small_map lrp_first line_point small_config
           true false).
  reflexivity.
Defined.

(** C9, as stated: the test of the source reads the length of the geometry,
    not the length attribute of the line. [line_z] has length 0 and a
    geometry that is not a point; it is projected on and yields a candidate. *)
Lemma make_candidates_zero_length_line :
  ¬ (∀ (E : MapEnv) lrp l config observer is_last_lrp,
       (line_length l == 0)%Q →
       (@make_candidates E lrp l config observer is_last_lrp).1 = []).
Proof.
  intros Hnone.
  specialize (Hnone small_map lrp_first line_z small_config false false).
  vm_compute in Hnone. discriminate (Hnone eq_refl).
Qed.

(** ** The memoisation dictionary on the small map *)

(** C1. The membership test at the top of [match_tail] asks for the key
    [(depth, candidates[0])], the lookup that follows reads
    [(current, candidates[0])]. With one candidate [cand_a] and the context
    key [(lrp_first, cand_a)] in the dictionary, the cached entry is not
    returned: the search runs and answers the route to [cand_c], whether the
    entry holds the route list [[route_a_b]] or records a failure. With the
    key [(0, cand_a)] in the dictionary and no context key, the lookup raises
    [KeyError]. *)
Theorem match_tail_context_memo_not_consulted :
  let cached_routes : gmap CacheKey (option (list Route)) :=
    {[ (KLrp lrp_first, cand_a) := Some [route_a_b] ]} in
  let cached_failure : gmap CacheKey (option (list Route)) :=
    {[ (KLrp lrp_first, cand_a) := None ]} in
  let depth_key : gmap CacheKey (option (list Route)) :=
    {[ (KDepth 0, cand_a) := None ]} in
  cached_routes !! (KLrp lrp_first, cand_a) = Some (Some [route_a_b])
  ∧ (@match_tail small_map lrp_first [cand_a] [lrp_last] small_config false 0
       (mkState cached_routes [])).1 = Ok [route_a_c]
  ∧ cached_failure !! (KLrp lrp_first, cand_a) = Some None
  ∧ (@match_tail small_map lrp_first [cand_a] [lrp_last] small_config false 0
       (mkState cached_failure [])).1 = Ok [route_a_c]
  ∧ (@match_tail small_map lrp_first [cand_a] [lrp_last] small_config false 0
       (mkState depth_key [])).1 = Raise KeyError.
Proof. vm_compute. repeat split. Qed.

(** C2. With the pair [(cand_a, cand_b)] recorded as a failure in the
    dictionary, [match_tail] raises [LRDecodeError] at that pair, the first
    in score order, although the next pair [(cand_a, cand_c)] has a route of
    accepted length, which the same call returns from an empty dictionary. *)
Theorem match_tail_cached_pair_failure_raises :
  let cached_failure : gmap CacheKey (option (list Route)) :=
    {[ (KCand cand_a, cand_b) := None ]} in
  (@nominate_candidates small_map lrp_last small_config false true).1 = [cand_c; cand_b]
  ∧ sort_pairs (product [cand_a] [cand_c; cand_b]) = [(cand_a, cand_b); (cand_a, cand_c)]
  ∧ (@handleCandidatePair small_map (lrp_first, lrp_last) (cand_a, cand_c) false
       (tolerated_lfrc small_config (lfrcnp lrp_first))
       (dnp_minlen small_config lrp_first) (dnp_maxlen small_config lrp_first)).1
    = Some route_a_c
  ∧ (@match_tail small_map lrp_first [cand_a] [lrp_last] small_config false 0
       (mkState cached_failure [])).1 = Raise (LRDecodeError NoCandidatesLeft)
  ∧ (@match_tail small_map lrp_first [cand_a] [lrp_last] small_config false 0
       (mkState ∅ [])).1 = Ok [route_a_c].
Proof. vm_compute. repeat split. Qed.

(** C3. Two top-level calls of [match_tail] with the same arguments and the
    [cache] argument left to its default, the first in a fresh process: the
    first returns the route to [cand_c] and leaves the failed pair
    [(cand_a, cand_b)] in the default dictionary; the second finds it there
    and raises [LRDecodeError]. *)
Theorem match_tail_default_cache_shared :
  let first :=
    @match_tail_default small_map ∅ lrp_first [cand_a] [lrp_last] small_config false in
  let second :=
    @match_tail_default small_map first.2 lrp_first [cand_a] [lrp_last] small_config false in
  first.1.1 = Ok [route_a_c]
  ∧ first.2 !! (KCand cand_a, cand_b) = Some None
  ∧ second.1.1 = Raise (LRDecodeError NoCandidatesLeft).
Proof. vm_compute. repeat split. Qed.

(** * Further properties of the module *)

(** ** Candidate generation: what a yielded candidate has passed *)

Section CandidateGates.
Context `{MapEnv}.

(** The candidate that [rate_candidate] rates at the offset [reloff]. *)
Lemma rate_candidate_inv lrp l config observer is_last_lrp reloff (c : Candidate) :
  c ∈ (rate_candidate lrp l config observer is_last_lrp reloff).1 →
  c = mkCandidate (mkPointOnLine l reloff)
        (score_lrp_candidate lrp (mkPointOnLine l reloff) config is_last_lrp)
  ∧ (frc_value (line_frc l) <= frc_value (tolerated_lfrc config (lfrcnp lrp)))%Z
  ∧ (Qabs (angle_difference
             (compute_bearing (mkPointOnLine l reloff) is_last_lrp (bear_dist config))
             (bear lrp)) <= max_bear_deviation config)%Q
  ∧ (min_score config <= score c)%Q.
Proof.
  unfold rate_candidate.
  destruct (Z.gtb_spec (frc_value (line_frc l))
              (frc_value (tolerated_lfrc config (lfrcnp lrp)))) as [Hfrc|Hfrc]; simpl.
  { intros Hc. by apply elem_of_nil in Hc. }
  destruct (Qgtb _ (max_bear_deviation config)) eqn:Hbear; simpl.
  { intros Hc. by apply elem_of_nil in Hc. }
  destruct (Qltb _ (min_score config)) eqn:Hscore; simpl.
  { intros Hc. by apply elem_of_nil in Hc. }
  intros Hc. apply list_elem_of_singleton in Hc. subst c. simpl.
  unfold Qgtb in Hbear. apply Qltb_ge in Hbear. apply Qltb_ge in Hscore.
  repeat split; try done.
Qed.

Lemma rate_candidate_length lrp l config observer is_last_lrp reloff :
  length (rate_candidate lrp l config observer is_last_lrp reloff).1 ≤ 1.
Proof.
  unfold rate_candidate.
  repeat match goal with
         | |- context [if ?b then _ else _] => destruct b
         end; simpl; lia.
Qed.

(** [make_candidates] either yields nothing without a call on the observer,
    or rates the line at one offset that leaves a part of the line. *)
Lemma make_candidates_inv lrp l config observer is_last_lrp :
  make_candidates lrp l config observer is_last_lrp = ([], [])
  ∨ ∃ reloff,
      make_candidates lrp l config observer is_last_lrp
      = rate_candidate lrp l config observer is_last_lrp reloff
      ∧ Qeq_bool (geometry_length (geometry l)) 0 = false
      ∧ (if is_last_lrp then (0 < reloff)%Q else (reloff < 1)%Q)
      ∧ (reloff = relative_offset (project l (coords lrp))
         ∨ (is_last_lrp = false ∧ reloff = 0%Q ∧ is_valid_node (start_node l) = true)
         ∨ (is_last_lrp = true ∧ reloff = 1%Q ∧ is_valid_node (end_node l) = true)).
Proof.
  unfold make_candidates, snap_not_last, snap_last.
  destruct (Qeq_bool (geometry_length (geometry l)) 0); [by left|].
  destruct is_last_lrp; simpl.
  - destruct (Qle_bool (Qabs (distance_to_end _)) _ && is_valid_node (end_node l)) eqn:Hend.
    + right. exists 1%Q. apply andb_true_iff in Hend as [_ Hvalid].
      repeat split; try done. right. by right.
    + destruct (Qle_bool (distance_from_start _) _ && is_valid_node (start_node l));
        [by left|].
      destruct (Qle_bool (relative_offset (project l (coords lrp))) 0) eqn:Hleft;
        [by left|].
      right. eexists. repeat split; try done.
      * apply Qnot_le_lt. intros Hle. apply Qle_bool_iff in Hle. congruence.
      * by left.
  - destruct (Qle_bool (Qabs (distance_from_start _)) _ && is_valid_node (start_node l))
      eqn:Hstart.
    + right. exists 0%Q. apply andb_true_iff in Hstart as [_ Hvalid].
      repeat split; try done. right. by left.
    + destruct (Qle_bool (Qabs (distance_to_end _)) _ && is_valid_node (end_node l));
        [by left|].
      destruct (Qle_bool 1 (relative_offset (project l (coords lrp)))) eqn:Hleft;
        [by left|].
      right. eexists. repeat split; try done.
      * apply Qnot_le_lt. intros Hle. apply Qle_bool_iff in Hle. congruence.
      * by left.
Qed.

(** X1. [make_candidates] yields at most one candidate for a line. *)
Theorem make_candidates_at_most_one lrp l config observer is_last_lrp :
  length (make_candidates lrp l config observer is_last_lrp).1 ≤ 1.
Proof.
  destruct (make_candidates_inv lrp l config observer is_last_lrp)
    as [->|(reloff & -> & _)]; [simpl; lia|].
  apply rate_candidate_length.
Qed.

(** X2. A candidate that [make_candidates] yields lies on the given line, has
    the score [score_lrp_candidate] gives its point, and has passed the three
    gates: the road class of the line is at most the tolerated one, the
    bearing differs from the bearing of the point by at most
    [max_bear_deviation], and the score is at least [min_score]. *)
Theorem make_candidates_gates lrp l config observer is_last_lrp (c : Candidate) :
  c ∈ (make_candidates lrp l config observer is_last_lrp).1 →
  line c = l
  ∧ score c = score_lrp_candidate lrp c config is_last_lrp
  ∧ (frc_value (line_frc l) <= frc_value (tolerated_lfrc config (lfrcnp lrp)))%Z
  ∧ (Qabs (angle_difference (compute_bearing c is_last_lrp (bear_dist config)) (bear lrp))
     <= max_bear_deviation config)%Q
  ∧ (min_score config <= score c)%Q.
Proof.
  destruct (make_candidates_inv lrp l config observer is_last_lrp)
    as [->|(reloff & -> & _)].
  { intros Hc. by apply elem_of_nil in Hc. }
  intros Hc. apply rate_candidate_inv in Hc as (-> & Hfrc & Hbear & Hscore).
  simpl in *. done.
Qed.

(** X3. A yielded candidate leaves a part of the line to travel: for a point
    that is not the last its relative offset is below 1, for the last point
    it is above 0. *)
Theorem make_candidates_partial_line lrp l config observer is_last_lrp (c : Candidate) :
  c ∈ (make_candidates lrp l config observer is_last_lrp).1 →
  if is_last_lrp then (0 < relative_offset c)%Q else (relative_offset c < 1)%Q.
Proof.
  destruct (make_candidates_inv lrp l config observer is_last_lrp)
    as [->|(reloff & -> & _ & Hpart & _)].
  { intros Hc. by apply elem_of_nil in Hc. }
  intros Hc. apply rate_candidate_inv in Hc as (-> & _). done.
Qed.

(** X4. With an observer attached, the last call [make_candidates] makes
    when it yields a candidate is [on_candidate_found] for that candidate. *)
Theorem make_candidates_found_event lrp l config is_last_lrp (c : Candidate) events :
  make_candidates lrp l config true is_last_lrp = ([c], events) →
  ∃ earlier, events = earlier ++ [on_candidate_found lrp c].
Proof.
  destruct (make_candidates_inv lrp l config true is_last_lrp)
    as [->|(reloff & -> & _)]; [done|].
  unfold rate_candidate.
  repeat match goal with
         | |- context [if ?b then _ else _] => destruct b
         end; simpl; intros [= <- <-]; eauto.
Qed.


(** Nomination over a list of lines. *)
Lemma nominate_lines_elem lrp lines config observer is_last_lrp (c : Candidate) :
  c ∈ (nominate_lines lrp lines config observer is_last_lrp).1 →
  ∃ l, l ∈ lines ∧ c ∈ (make_candidates lrp l config observer is_last_lrp).1.
Proof.
  induction lines as [|l lines IH]; simpl.
  { intros Hc. by apply elem_of_nil in Hc. }
  destruct (make_candidates lrp l config observer is_last_lrp) as [cs evs] eqn:Hmake.
  destruct (nominate_lines lrp lines config observer is_last_lrp) as [cs' evs'].
  simpl in *. intros Hc. apply elem_of_app in Hc as [Hc|Hc].
  - exists l. rewrite Hmake. split; [apply list_elem_of_here | done].
  - destruct (IH Hc) as (l' & Hl' & Hc'). exists l'. split; [by apply list_elem_of_further | done].
Qed.

Lemma nominate_lines_length lrp lines config observer is_last_lrp :
  length (nominate_lines lrp lines config observer is_last_lrp).1 ≤ length lines.
Proof.
  induction lines as [|l lines IH]; simpl; [lia|].
  destruct (make_candidates_inv lrp l config observer is_last_lrp)
    as [Hmake|(reloff & Hmake & _)]; rewrite Hmake.
  - destruct (nominate_lines lrp lines config observer is_last_lrp) as [cs' evs'].
    simpl in *. lia.
  - pose proof (rate_candidate_length lrp l config observer is_last_lrp reloff) as Hone.
    destruct (rate_candidate lrp l config observer is_last_lrp reloff) as [cs evs].
    destruct (nominate_lines lrp lines config observer is_last_lrp) as [cs' evs'].
    simpl in *. rewrite length_app. lia.
Qed.

(** X6. Every candidate [nominate_candidates] yields lies on a line the
    reader found around the point, with the score [score_lrp_candidate] gives
    it, at least [min_score], on a road class within the tolerated one and
    with a bearing within [max_bear_deviation]. *)
Theorem nominate_candidates_gates lrp config observer is_last_lrp (c : Candidate) :
  c ∈ (nominate_candidates lrp config observer is_last_lrp).1 →
  line c ∈ find_lines_close_to (coords lrp) (search_radius config)
  ∧ score c = score_lrp_candidate lrp c config is_last_lrp
  ∧ (frc_value (line_frc (line c)) <= frc_value (tolerated_lfrc config (lfrcnp lrp)))%Z
  ∧ (Qabs (angle_difference (compute_bearing c is_last_lrp (bear_dist config)) (bear lrp))
     <= max_bear_deviation config)%Q
  ∧ (min_score config <= score c)%Q.
Proof.
  unfold nominate_candidates. intros Hc.
  apply nominate_lines_elem in Hc as (l & Hl & Hc).
  destruct (make_candidates_inv lrp l config observer is_last_lrp)
    as [Hmake|(reloff & Hmake & _)]; rewrite Hmake in Hc.
  { by apply elem_of_nil in Hc. }
  apply rate_candidate_inv in Hc as (-> & Hfrc & Hbear & Hscore). simpl in *. done.
Qed.

(** X7. [nominate_candidates] yields at most one candidate per line the
    reader found; where the reader finds no line it yields nothing and makes
    no call on the observer. *)
Theorem nominate_candidates_bounded lrp config observer is_last_lrp :
  length (nominate_candidates lrp config observer is_last_lrp).1
  ≤ length (find_lines_close_to (coords lrp) (search_radius config))
  ∧ (find_lines_close_to (coords lrp) (search_radius config) = [] →
     nominate_candidates lrp config observer is_last_lrp = ([], [])).
Proof.
  unfold nominate_candidates. split; [apply nominate_lines_length|].
  by intros ->.
Qed.

End CandidateGates.

(** ** Routes between two candidates: filter, report and exact distance *)

Section RouteFilter.
Context `{MapEnv}.

Lemma get_candidate_route_endpoints start dest lfrc maxlen route :
  get_candidate_route start dest lfrc maxlen = Some route →
  route_start route = start ∧ route_end route = dest.
Proof.
  unfold get_candidate_route.
  destruct (line_id (line start) =? line_id (line dest))%Z.
  - by intros [= <-].
  - destruct (shortest_path _ _ _ _); [by intros [= <-] | done].
Qed.

(** X8. Over a path search that returns only lines its line filter accepts,
    a route found by [get_candidate_route] runs from [start] to [dest] and
    every line of its path has a road class of at most [lfrc]. *)
Theorem get_candidate_route_respects_lfrc start dest lfrc maxlen route :
  (∀ origin target linefilter limit found,
     shortest_path origin target linefilter limit = Some found →
     Forall (λ l, linefilter l = true) found) →
  get_candidate_route start dest lfrc maxlen = Some route →
  route_start route = start
  ∧ route_end route = dest
  ∧ Forall (λ l, (frc_value (line_frc l) <= frc_value lfrc)%Z) (path route).
Proof.
  intros Hfilter Hroute.
  destruct (get_candidate_route_endpoints _ _ _ _ _ Hroute) as [Hstart Hend].
  repeat split; try done.
  revert Hroute. unfold get_candidate_route.
  destruct (line_id (line start) =? line_id (line dest))%Z.
  - intros [= <-]. simpl. constructor.
  - destruct (shortest_path _ _ _ _) as [found|] eqn:Hsearch; [|done].
    intros [= <-]. simpl.
    apply Hfilter in Hsearch.
    eapply Forall_impl; [exact Hsearch|].
    intros l Hl. simpl in Hl. by apply Z.leb_le.
Qed.

(** X9. With an observer attached, [handleCandidatePair] reports its
    outcome: a returned route comes with the single call [on_route_success],
    and whenever it returns [None] its last call is [on_route_fail] for the
    pair. Without an observer it makes no call. *)
Theorem handleCandidatePair_reports_outcome current next_lrp source dest lowest_frc
    minlen maxlen :
  match handleCandidatePair (current, next_lrp) (source, dest) true lowest_frc
          minlen maxlen with
  | (Some route, events) =>
    events = [on_route_success current next_lrp source dest route]
  | (None, events) =>
    ∃ earlier reason,
      events = earlier ++ [on_route_fail current next_lrp source dest reason]
  end
  ∧ (handleCandidatePair (current, next_lrp) (source, dest) false lowest_frc
       minlen maxlen).2 = [].
Proof.
  destruct (get_candidate_route source dest lowest_frc maxlen) as [found|] eqn:Hroute.
  - rewrite !(handleCandidatePair_found _ _ _ _ _ _ _ _ _ Hroute).
    destruct (Qltb (route_length found) minlen || Qgtb (route_length found) maxlen);
      simpl; split; try done.
    exists [on_route_success current next_lrp source dest found;
            on_route_fail_length current next_lrp source dest found
              (route_length found) minlen maxlen].
    by eexists.
  - rewrite !(handleCandidatePair_not_found _ _ _ _ _ _ _ _ Hroute). simpl.
    split; [|done]. exists []. by eexists.
Qed.

Lemma dnp_inside_envelope config (current : LocationReferencePoint) :
  (0 <= max_dnp_deviation config)%Q →
  (0 <= tolerated_dnp_dev config)%Q →
  (0 <= dnp current)%Z →
  (dnp_minlen config current <= inject_Z (dnp current))%Q
  ∧ (inject_Z (dnp current) <= dnp_maxlen config current)%Q.
Proof.
  intros Hdev Htol Hdnp. unfold dnp_minlen, dnp_maxlen.
  assert (Hdist : (0 <= inject_Z (dnp current))%Q).
  { change 0%Q with (inject_Z 0). by rewrite <- Zle_Qle. }
  pose proof (Qmult_le_0_compat _ _ Hdev Hdist) as Hprod.
  split; lra.
Qed.

(** X10. With tolerances that are not negative, a route whose length is the
    distance to the next point that [current] states is accepted: where
    [get_candidate_route] finds such a route, [handleCandidatePair] returns
    it under the bounds [match_tail] computes. *)
Theorem handleCandidatePair_exact_dnp config current next_lrp source dest observer
    lowest_frc route :
  (0 <= max_dnp_deviation config)%Q →
  (0 <= tolerated_dnp_dev config)%Q →
  (0 <= dnp current)%Z →
  get_candidate_route source dest lowest_frc (dnp_maxlen config current) = Some route →
  (route_length route == inject_Z (dnp current))%Q →
  (handleCandidatePair (current, next_lrp) (source, dest) observer lowest_frc
     (dnp_minlen config current) (dnp_maxlen config current)).1 = Some route.
Proof.
  intros Hdev Htol Hdnp Hroute Hlen.
  rewrite (handleCandidatePair_found _ _ _ _ _ _ _ _ _ Hroute).
  destruct (dnp_inside_envelope config current Hdev Htol Hdnp) as [Hmin Hmax].
  assert (Hinside : Qltb (route_length route) (dnp_minlen config current)
                    || Qgtb (route_length route) (dnp_maxlen config current) = false).
  { apply inside_envelope. rewrite Hlen. done. }
  by rewrite Hinside.
Qed.

End RouteFilter.

(** ** The order in which the pairs are tried *)

Lemma elem_of_product candidates next_candidates (c_from c_to : Candidate) :
  (c_from, c_to) ∈ product candidates next_candidates
  ↔ c_from ∈ candidates ∧ c_to ∈ next_candidates.
Proof.
  unfold product. rewrite !list_elem_of_In, in_flat_map. split.
  - intros (c & Hc & Hpair). by apply in_map_iff in Hpair as (c' & [= <- <-] & Hc').
  - intros [Hfrom Hto]. exists c_from. split; [done|].
    apply in_map_iff. by exists c_to.
Qed.


Lemma insert_pair_perm pair sorted : insert_pair pair sorted ≡ₚ pair :: sorted.
Proof.
  induction sorted as [|q rest IH]; simpl; [done|].
  destruct (Qltb (pair_score pair) (pair_score q)); [|done].
  rewrite IH. apply Permutation_swap.
Qed.

Lemma sort_pairs_perm pairs : sort_pairs pairs ≡ₚ pairs.
Proof.
  induction pairs as [|pair pairs IH]; simpl; [done|].
  unfold sort_pairs in *. simpl. by rewrite insert_pair_perm, IH.
Qed.

Lemma insert_pair_sorted pair sorted :
  StronglySorted score_descending sorted →
  StronglySorted score_descending (insert_pair pair sorted).
Proof.
  induction 1 as [|q rest Hrest IH Hq]; simpl.
  { repeat constructor. }
  destruct (Qltb (pair_score pair) (pair_score q)) eqn:Hlt.
  - constructor; [done|].
    rewrite insert_pair_perm. constructor; [|done].
    apply Qltb_lt in Hlt. unfold score_descending. by apply Qlt_le_weak.
  - apply Qltb_ge in Hlt. constructor; [by constructor|].
    constructor; [done|].
    eapply Forall_impl; [exact Hq|].
    intros r Hr. unfold score_descending in *. by eapply Qle_trans.
Qed.

Lemma sort_pairs_sorted pairs : StronglySorted score_descending (sort_pairs pairs).
Proof.
  induction pairs as [|pair pairs IH]; [constructor|].
  unfold sort_pairs in *. simpl. by apply insert_pair_sorted.
Qed.

Lemma elem_of_sorted_product candidates next_candidates (c_from c_to : Candidate) :
  (c_from, c_to) ∈ sort_pairs (product candidates next_candidates)
  ↔ c_from ∈ candidates ∧ c_to ∈ next_candidates.
Proof. by rewrite sort_pairs_perm, elem_of_product. Qed.


(** X12. The sort is stable: pairs that are already in an order of
    non-increasing score sum, pairs of equal sum among them, keep their
    order. *)
Theorem sort_pairs_stable pairs :
  StronglySorted (λ p q, (pair_score q <= pair_score p)%Q) pairs →
  sort_pairs pairs = pairs.
Proof.
  induction 1 as [|pair rest Hrest IH Hpair]; [done|].
  unfold sort_pairs in *. simpl. rewrite IH.
  destruct rest as [|q rest]; [done|]. simpl.
  apply Forall_cons in Hpair as [Hq _].
  apply Qltb_ge in Hq. by rewrite Hq.
Qed.

(** ** Node classification: through nodes of a road *)

Lemma size_pair_nodes (a b : Node) : size ({[a; b]} : gset Node) ≤ 2.
Proof.
  rewrite size_union_alt, size_singleton.
  pose proof (subseteq_size ({[b]} ∖ {[a]} : gset Node) {[b]}) as Hle.
  rewrite size_singleton in Hle.
  assert (({[b]} ∖ {[a]} : gset Node) ⊆ {[b]}) as Hsub by set_solver.
  specialize (Hle Hsub). lia.
Qed.

Lemma size_three_nodes (a b c : Node) (seen : gset Node) :
  seen = {[a; b; c]} → (size seen = 3 ↔ a ≠ b ∧ a ≠ c ∧ b ≠ c).
Proof.
  intros ->. split.
  - intros Hsize.
    assert (∀ x y : Node, ({[a; b; c]} : gset Node) ⊆ {[x; y]} → False) as Hsmall.
    { intros x y Hsub. apply subseteq_size in Hsub.
      pose proof (size_pair_nodes x y). lia. }
    repeat split; intros ->.
    + apply (Hsmall b c). set_solver.
    + apply (Hsmall c b). set_solver.
    + apply (Hsmall a c). set_solver.
  - intros (Hab & Hac & Hbc).
    rewrite !size_union, !size_singleton by set_solver. done.
Qed.

Section ThroughNodes.
Context `{MapEnv}.

(** X13. A node with one line in and one line out is invalid exactly when
    the road passes through it: the line in starts at another node, the line
    out ends at another node, and these two nodes differ. Where the line out
    leads back to the start of the line in, or one of the lines is a loop,
    the node is valid. *)
Theorem is_invalid_node_one_way (node : Node) (line_in line_out : Line) :
  incoming_lines node = [line_in] →
  outgoing_lines node = [line_out] →
  end_node line_in = node →
  start_node line_out = node →
  (is_invalid_node node = true
   ↔ start_node line_in ≠ node
     ∧ end_node line_out ≠ node
     ∧ start_node line_in ≠ end_node line_out).
Proof.
  intros Hin Hout Hend Hstart. unfold is_invalid_node.
  rewrite Hin, Hout. cbn [length Nat.eqb andb orb foldl]. rewrite bool_decide_eq_true.
  rewrite (size_three_nodes node (start_node line_in) (end_node line_out)).
  - naive_solver.
  - unfold add_endpoints. rewrite Hend, Hstart. set_solver.
Qed.

(** X14. A node with two lines in and two lines out that continue one road
    in both directions (every line in has an opposite line out and every
    line out an opposite line in) is invalid exactly when the two lines in
    start at two different nodes other than the node itself. *)
Theorem is_invalid_node_two_way (node : Node) (in1 in2 out1 out2 : Line) :
  incoming_lines node = [in1; in2] →
  outgoing_lines node = [out1; out2] →
  end_node in1 = node →
  end_node in2 = node →
  start_node out1 = node →
  start_node out2 = node →
  same_direction_pattern [in1; in2] [out1; out2] = true →
  (is_invalid_node node = true
   ↔ start_node in1 ≠ node
     ∧ start_node in2 ≠ node
     ∧ start_node in1 ≠ start_node in2).
Proof.
  intros Hin Hout Hend1 Hend2 Hstart1 Hstart2 Hpattern. unfold is_invalid_node.
  rewrite Hin, Hout. cbn [length Nat.eqb andb orb foldl]. rewrite bool_decide_eq_true.
  rewrite (size_three_nodes node (start_node in1) (start_node in2)).
  - naive_solver.
  - unfold same_direction_pattern, opposite in Hpattern. simpl in Hpattern.
    repeat (rewrite ?andb_true_iff, ?orb_true_iff, ?Z.eqb_eq in Hpattern).
    destruct Hpattern as [_ (Hout1 & Hout2 & _)].
    unfold add_endpoints. rewrite Hend1, Hend2, Hstart1, Hstart2.
    assert (end_node out1 = start_node in1 ∨ end_node out1 = start_node in2)
      as Hback1 by naive_solver.
    assert (end_node out2 = start_node in1 ∨ end_node out2 = start_node in2)
      as Hback2 by naive_solver.
    destruct Hback1 as [-> | ->], Hback2 as [-> | ->]; set_solver.
Qed.

End ThroughNodes.

(** ** The tail matcher: what a decoded list of routes satisfies *)

Lemma sorted_after (pairs earlier later : list (Candidate * Candidate))
    (pair : Candidate * Candidate) :
  StronglySorted score_descending pairs →
  pairs = earlier ++ pair :: later →
  Forall (score_descending pair) later.
Proof.
  intros Hsorted. revert pairs Hsorted.
  induction earlier as [|p earlier IH]; intros pairs Hsorted ->; simpl in *.
  - by apply StronglySorted_inv in Hsorted as [_ Hlater].
  - apply StronglySorted_inv in Hsorted as [Hsorted _]. by eapply IH.
Qed.

Section TailMatcherSoundness.
Context `{MapEnv}.

Lemma pair_failures_only_store_lrp lrp c v st :
  pair_failures_only (cache st) →
  pair_failures_only (cache (store (KLrp lrp, c) v st)).
Proof.
  intros Hst c_from c_to w. unfold store. simpl.
  rewrite lookup_insert_ne; [apply Hst | congruence].
Qed.

Lemma pair_failures_only_store_cand c_from c_to st :
  pair_failures_only (cache st) →
  pair_failures_only (cache (store (KCand c_from, c_to) None st)).
Proof.
  intros Hst a b w. unfold store. simpl.
  destruct (decide ((KCand c_from, c_to) = (KCand a, b))) as [<-|Hne].
  - rewrite lookup_insert_eq. by intros [= <-].
  - rewrite lookup_insert_ne by done. apply Hst.
Qed.

Lemma decoder_cache_empty : decoder_cache ∅.
Proof.
  split; [apply no_depth_key_empty|].
  intros c_from c_to v. by rewrite lookup_empty.
Qed.

Lemma decoder_cache_store_lrp lrp c v st :
  decoder_cache (cache st) → decoder_cache (cache (store (KLrp lrp, c) v st)).
Proof.
  intros [Hdepth Hpairs].
  split; [by apply no_depth_key_store_lrp | by apply pair_failures_only_store_lrp].
Qed.

Lemma decoder_cache_store_cand c_from c_to st :
  decoder_cache (cache st) → decoder_cache (cache (store (KCand c_from, c_to) None st)).
Proof.
  intros [Hdepth Hpairs].
  split; [by apply no_depth_key_store_cand | by apply pair_failures_only_store_cand].
Qed.

Lemma match_pairs_decoder_cache recurse current next_lrp candidates next_candidates
    observer lfrc minlen maxlen last_lrp pairs :
  (∀ c st, decoder_cache (cache st) → decoder_cache (cache (recurse c st).2)) →
  ∀ st, decoder_cache (cache st) →
  decoder_cache
    (cache (match_pairs recurse current next_lrp candidates next_candidates observer
              lfrc minlen maxlen last_lrp pairs st).2).
Proof.
  intros Hrecurse. induction pairs as [|[c_from c_to] pairs IH]; intros st Hst.
  - cbn [match_pairs]. unfold matching_failed. simpl.
    destruct candidates as [|c [|c' candidates]]; try done.
    by apply decoder_cache_store_lrp.
  - cbn [match_pairs].
    destruct (cache st !! (KCand c_from, c_to)) as [[v|]|]; try done.
    destruct (handleCandidatePair _ _ _ _ _ _) as [[route|] events].
    + destruct last_lrp; [done|].
      specialize (Hrecurse c_to (emit events st) Hst).
      destruct (recurse c_to (emit events st)) as [[rest|e] st'] eqn:Hrec; simpl in *.
      * destruct candidates as [|c [|c' candidates]]; try done.
        by apply decoder_cache_store_lrp.
      * destruct e; try done. by apply IH.
    + apply IH. by apply (decoder_cache_store_cand c_from c_to (emit events st)).
Qed.

Lemma match_tail_decoder_cache tail :
  ∀ current candidates config observer depth st,
    decoder_cache (cache st) →
    decoder_cache (cache (match_tail current candidates tail config observer depth st).2).
Proof.
  induction tail as [|next_lrp tail' IH]; intros current candidates config observer depth st Hst.
  - cbn [match_tail]. rewrite (memo_hit_no_depth_key _ _ _ (proj1 Hst)). done.
  - cbn [match_tail]. rewrite (memo_hit_no_depth_key _ _ _ (proj1 Hst)).
    destruct candidates as [|c candidates]; [done|].
    destruct (nominate_candidates _ _ _ _) as [[|n next_candidates] events]; [done|].
    apply match_pairs_decoder_cache; [|done].
    intros c_to st' Hst'. by apply IH.
Qed.

(** X15. Over a dictionary that has no depth-headed key and whose entries
    under pairs of candidates are recorded failures, as the empty dictionary
    is, [match_tail] leaves such a dictionary: it stores nothing under a
    depth-headed key and no list of routes under a pair of candidates. *)
Theorem match_tail_cache_discipline current candidates tail config observer depth st :
  no_depth_key (cache st) →
  pair_failures_only (cache st) →
  no_depth_key (cache (match_tail current candidates tail config observer depth st).2)
  ∧ pair_failures_only
      (cache (match_tail current candidates tail config observer depth st).2).
Proof.
  intros Hdepth Hpairs.
  by apply (match_tail_decoder_cache tail current candidates config observer depth st).
Qed.


Lemma handleCandidatePair_accepted current next_lrp source dest observer lowest_frc
    minlen maxlen route :
  (handleCandidatePair (current, next_lrp) (source, dest) observer lowest_frc
     minlen maxlen).1 = Some route →
  get_candidate_route source dest lowest_frc maxlen = Some route
  ∧ (minlen <= route_length route)%Q ∧ (route_length route <= maxlen)%Q.
Proof.
  destruct (get_candidate_route source dest lowest_frc maxlen) as [found|] eqn:Hroute.
  - rewrite (handleCandidatePair_found _ _ _ _ _ _ _ _ _ Hroute).
    destruct (Qltb (route_length found) minlen || Qgtb (route_length found) maxlen)
      eqn:Hlen; simpl; [done|].
    intros [= <-]. by apply inside_envelope in Hlen.
  - by rewrite (handleCandidatePair_not_found _ _ _ _ _ _ _ _ Hroute).
Qed.

(** The pair at which the loop over the pairs returns a list of routes. *)
Lemma match_pairs_sound recurse current next_lrp candidates next_candidates observer
    lfrc minlen maxlen last_lrp (follows : Candidate → list Route → Prop) pairs :
  (∀ c st, decoder_cache (cache st) → decoder_cache (cache (recurse c st).2)) →
  (∀ c st rest, decoder_cache (cache st) → (recurse c st).1 = Ok rest → follows c rest) →
  ∀ st routes,
    decoder_cache (cache st) →
    (match_pairs recurse current next_lrp candidates next_candidates observer
       lfrc minlen maxlen last_lrp pairs st).1 = Ok routes →
    ∃ rejected c_from c_to later route rest,
      pairs = rejected ++ (c_from, c_to) :: later
      ∧ routes = route :: rest
      ∧ get_candidate_route c_from c_to lfrc maxlen = Some route
      ∧ (minlen <= route_length route)%Q
      ∧ (route_length route <= maxlen)%Q
      ∧ (if last_lrp
         then rest = []
              ∧ Forall (λ pair, (handleCandidatePair (current, next_lrp) pair observer
                                   lfrc minlen maxlen).1 = None) rejected
         else follows c_to rest).
Proof.
  intros Hkeeps Hfollows.
  induction pairs as [|[c_from c_to] pairs IH]; intros st routes Hst.
  - cbn [match_pairs]. unfold matching_failed. simpl. done.
  - cbn [match_pairs].
    destruct (cache st !! (KCand c_from, c_to)) as [[v|]|] eqn:Hcached.
    + by apply (proj2 Hst) in Hcached.
    + done.
    + destruct (handleCandidatePair (current, next_lrp) (c_from, c_to) observer lfrc
                  minlen maxlen) as [[route|] events] eqn:Hpair.
      * assert (Haccepted := handleCandidatePair_accepted current next_lrp c_from c_to
                               observer lfrc minlen maxlen route).
        rewrite Hpair in Haccepted. destruct (Haccepted eq_refl) as (Hroute & Hmin & Hmax).
        destruct last_lrp.
        { intros [= <-]. exists [], c_from, c_to, pairs, route, []. by repeat split. }
        pose proof (Hkeeps c_to (emit events st) Hst) as Hkept.
        pose proof (Hfollows c_to (emit events st)) as Hrest.
        destruct (recurse c_to (emit events st)) as [[rest|e] st1]; simpl in *.
        { intros [= <-]. exists [], c_from, c_to, pairs, route, rest.
          repeat split; try done. by apply Hrest. }
        destruct e as [msg| |]; try done.
        intros Hloop.
        destruct (IH st1 routes Hkept Hloop)
          as (rejected & a & b & later & r & rest & -> & Hrest').
        by exists ((c_from, c_to) :: rejected), a, b, later, r, rest.
      * intros Hloop.
        destruct (IH (store (KCand c_from, c_to) None (emit events st)) routes
                    (decoder_cache_store_cand c_from c_to (emit events st) Hst) Hloop)
          as (rejected & a & b & later & r & rest & -> & -> & Hroute & Hmin & Hmax & Hlast).
        exists ((c_from, c_to) :: rejected), a, b, later, r, rest.
        repeat split; try done.
        destruct last_lrp; [|done].
        destruct Hlast as [-> Hrejected]. split; [done|].
        constructor; [by rewrite Hpair | done].
Qed.

(** Every list of routes [match_tail] returns is [decoded]. *)
Lemma match_tail_decoded tail :
  ∀ current candidates config observer depth st routes,
    decoder_cache (cache st) →
    (match_tail current candidates tail config observer depth st).1 = Ok routes →
    ∃ c, c ∈ candidates ∧ decoded config observer current c tail routes.
Proof.
  induction tail as [|next_lrp tail' IH];
    intros current candidates config observer depth st routes Hst.
  - cbn [match_tail]. rewrite (memo_hit_no_depth_key _ _ _ (proj1 Hst)). done.
  - cbn [match_tail]. rewrite (memo_hit_no_depth_key _ _ _ (proj1 Hst)).
    destruct candidates as [|c0 candidates0]; [done|].
    set (candidates := c0 :: candidates0).
    destruct (nominate_candidates next_lrp config observer
                (Nat.eqb (length (next_lrp :: tail')) 1))
      as [next_candidates events] eqn:Hnominate.
    destruct next_candidates as [|n0 next_candidates0]; [done|].
    set (next_candidates := n0 :: next_candidates0) in *.
    intros Hloop.
    apply (match_pairs_sound _ _ _ _ _ _ _ _ _ _
             (λ c rest, decoded config observer next_lrp c tail' rest)) in Hloop.
    + destruct Hloop
        as (rejected & c_from & c_to & later & route & rest
            & Hpairs & -> & Hroute & Hmin & Hmax & Hlast).
      assert ((c_from, c_to) ∈ sort_pairs (product candidates next_candidates)) as Hpair.
      { rewrite Hpairs. apply elem_of_app. right. apply list_elem_of_here. }
      apply elem_of_sorted_product in Hpair as [Hfrom Hto].
      destruct (get_candidate_route_endpoints _ _ _ _ _ Hroute) as [Hstart Hend].
      exists c_from. split; [done|].
      cbn [decoded]. rewrite Hend, Hnominate. repeat split; try done.
      destruct (Nat.eqb (length (next_lrp :: tail')) 1) eqn:Hlast_lrp; [|done].
      destruct Hlast as [-> _]. apply Nat.eqb_eq in Hlast_lrp.
      destruct tail'; [done | discriminate Hlast_lrp].
    + intros c st' Hst'. by apply match_tail_decoder_cache.
    + intros c st' rest Hst' Hrest.
      destruct (IH next_lrp [c] config observer (depth + 1)%Z st' rest Hst' Hrest)
        as (c' & Hc' & Hdecoded).
      by apply list_elem_of_singleton in Hc' as ->.
    + done.
Qed.

Lemma decoded_length config observer tail :
  ∀ current start routes,
    decoded config observer current start tail routes → length routes = length tail.
Proof.
  induction tail as [|next_lrp tail' IH]; intros current start [|r routes]; try done.
  cbn [decoded]. intros (_ & _ & _ & _ & _ & Hrest). simpl. f_equal. by eapply IH.
Qed.

Lemma decoded_connected config observer tail :
  ∀ current start routes,
    decoded config observer current start tail routes →
    (∀ r, head routes = Some r → route_start r = start)
    ∧ ∀ i r r', routes !! i = Some r → routes !! S i = Some r' →
                route_end r = route_start r'.
Proof.
  induction tail as [|next_lrp tail' IH]; intros current start [|r routes]; try done.
  cbn [decoded]. intros (Hstart & _ & _ & _ & _ & Hrest).
  destruct (IH _ _ _ Hrest) as [Hhead Hlinks]. split.
  - by intros r0 [= <-].
  - intros [|i] r1 r2; simpl.
    + intros [= <-] Hnext. symmetry. apply Hhead. by rewrite head_lookup.
    + apply Hlinks.
Qed.

Lemma decoded_index config observer tail :
  ∀ current start routes i lrp next_lrp r,
    decoded config observer current start tail routes →
    (current :: tail) !! i = Some lrp →
    tail !! i = Some next_lrp →
    routes !! i = Some r →
    get_candidate_route (route_start r) (route_end r) (tolerated_lfrc config (lfrcnp lrp))
      (dnp_maxlen config lrp) = Some r
    ∧ (dnp_minlen config lrp <= route_length r)%Q
    ∧ (route_length r <= dnp_maxlen config lrp)%Q
    ∧ route_end r ∈ (nominate_candidates next_lrp config observer
                       (Nat.eqb (S i) (length tail))).1.
Proof.
  induction tail as [|next tail' IH]; intros current start [|r0 routes] i lrp next_lrp r;
    try done.
  cbn [decoded]. intros (Hstart & Hend & Hroute & Hmin & Hmax & Hrest).
  destruct i as [|i]; simpl.
  - intros [= <-] [= <-] [= <-]. rewrite Hstart. repeat split; try done.
    by destruct tail'.
  - intros Hlrp Hnext Hr. by apply (IH next (route_end r0) routes i).
Qed.

(** X17. Over a dictionary without depth-headed keys whose entries under
    pairs of candidates are recorded failures, a list of routes returned by
    [match_tail] has one route for each following point. *)
Theorem match_tail_one_route_per_point current candidates tail config observer depth st
    routes :
  decoder_cache (cache st) →
  (match_tail current candidates tail config observer depth st).1 = Ok routes →
  length routes = length tail.
Proof.
  intros Hst Hroutes.
  destruct (match_tail_decoded _ _ _ _ _ _ _ _ Hst Hroutes) as (c & _ & Hdecoded).
  by eapply decoded_length.
Qed.

(** X18. Over such a dictionary, the routes returned by [match_tail] form a
    chain: the first starts at one of the given candidates and each route
    starts at the candidate at which the one before it ends. *)
Theorem match_tail_routes_connected current candidates tail config observer depth st
    routes :
  decoder_cache (cache st) →
  (match_tail current candidates tail config observer depth st).1 = Ok routes →
  (∃ r, head routes = Some r ∧ route_start r ∈ candidates)
  ∧ ∀ i r r', routes !! i = Some r → routes !! S i = Some r' →
              route_end r = route_start r'.
Proof.
  intros Hst Hroutes.
  destruct (match_tail_decoded _ _ _ _ _ _ _ _ Hst Hroutes) as (c & Hc & Hdecoded).
  destruct (decoded_connected _ _ _ _ _ _ Hdecoded) as [Hhead Hlinks].
  split; [|done].
  destruct tail as [|next_lrp tail'].
  { cbn [match_tail] in Hroutes.
    by rewrite (memo_hit_no_depth_key _ _ _ (proj1 Hst)) in Hroutes. }
  destruct routes as [|r0 routes']; [done|].
  exists r0. split; [done|]. by rewrite (Hhead r0 eq_refl).
Qed.

(** X19. Over such a dictionary, each route returned by [match_tail] is the
    route [get_candidate_route] finds between its two ends under the lowest
    road class and the maximal length of the point it leaves, and its length
    lies within the accepted distance to the next point of that point. *)
Theorem match_tail_routes_within_dnp current candidates tail config observer depth st
    routes i lrp r :
  decoder_cache (cache st) →
  (match_tail current candidates tail config observer depth st).1 = Ok routes →
  (current :: tail) !! i = Some lrp →
  routes !! i = Some r →
  get_candidate_route (route_start r) (route_end r) (tolerated_lfrc config (lfrcnp lrp))
    (dnp_maxlen config lrp) = Some r
  ∧ (dnp_minlen config lrp <= route_length r)%Q
  ∧ (route_length r <= dnp_maxlen config lrp)%Q.
Proof.
  intros Hst Hroutes Hlrp Hr.
  destruct (match_tail_decoded _ _ _ _ _ _ _ _ Hst Hroutes) as (c & _ & Hdecoded).
  assert (is_Some (tail !! i)) as [next_lrp Hnext].
  { apply lookup_lt_is_Some. rewrite <- (decoded_length _ _ _ _ _ _ Hdecoded).
    by eapply lookup_lt_Some. }
  destruct (decoded_index _ _ _ _ _ _ _ _ _ _ Hdecoded Hlrp Hnext Hr)
    as (Hroute & Hmin & Hmax & _).
  done.
Qed.

(** X20. Over such a dictionary, each route returned by [match_tail] ends
    at a candidate that [nominate_candidates] yields for the point it leads
    to, nominated as the last point exactly for the last of the following
    points. *)
Theorem match_tail_routes_end_at_nominated current candidates tail config observer depth
    st routes i next_lrp r :
  decoder_cache (cache st) →
  (match_tail current candidates tail config observer depth st).1 = Ok routes →
  tail !! i = Some next_lrp →
  routes !! i = Some r →
  route_end r ∈ (nominate_candidates next_lrp config observer
                   (Nat.eqb (S i) (length tail))).1.
Proof.
  intros Hst Hroutes Hnext Hr.
  destruct (match_tail_decoded _ _ _ _ _ _ _ _ Hst Hroutes) as (c & _ & Hdecoded).
  assert (is_Some ((current :: tail) !! i)) as [lrp Hlrp].
  { apply lookup_lt_is_Some. simpl. apply lookup_lt_Some in Hnext. lia. }
  by destruct (decoded_index _ _ _ _ _ _ _ _ _ _ Hdecoded Hlrp Hnext Hr)
    as (_ & _ & _ & Hend).
Qed.

End TailMatcherSoundness.

(** ** The tail matcher: failures, the best pair and the stored result *)

Section TailMatcherOutcomes.
Context `{MapEnv}.




(** X22. Over a dictionary without depth-headed keys whose entries under
    pairs of candidates are recorded failures, the route [match_tail]
    returns for a single following point belongs to the best acceptable
    pair: it joins one of the given candidates to a candidate nominated for
    the last point, and [handleCandidatePair] rejects every pair of such
    candidates whose score sum is higher. *)
Theorem match_tail_last_hop_best_pair current candidates next_lrp config observer depth
    st routes :
  decoder_cache (cache st) →
  (match_tail current candidates [next_lrp] config observer depth st).1 = Ok routes →
  ∃ route,
    routes = [route]
    ∧ route_start route ∈ candidates
    ∧ route_end route ∈ (nominate_candidates next_lrp config observer true).1
    ∧ ∀ c_from c_to : Candidate,
        c_from ∈ candidates →
        c_to ∈ (nominate_candidates next_lrp config observer true).1 →
        (pair_score (route_start route, route_end route) < pair_score (c_from, c_to))%Q →
        (handleCandidatePair (current, next_lrp) (c_from, c_to) observer
           (tolerated_lfrc config (lfrcnp current))
           (dnp_minlen config current) (dnp_maxlen config current)).1 = None.
Proof.
  intros Hst. cbn [match_tail]. rewrite (memo_hit_no_depth_key _ _ _ (proj1 Hst)).
  destruct candidates as [|c0 candidates0]; [done|].
  set (candidates := c0 :: candidates0).
  change (Nat.eqb (length [next_lrp]) 1) with true.
  destruct (nominate_candidates next_lrp config observer true)
    as [next_candidates events] eqn:Hnominate.
  destruct next_candidates as [|n0 next_candidates0]; [done|].
  set (next_candidates := n0 :: next_candidates0) in *.
  intros Hloop.
  apply (match_pairs_sound _ _ _ _ _ _ _ _ _ _ (λ _ _, True)) in Hloop; [| |done..].
  - destruct Hloop
      as (rejected & a & b & later & route & rest
          & Hpairs & -> & Hroute & _ & _ & -> & Hrejected).
    destruct (get_candidate_route_endpoints _ _ _ _ _ Hroute) as [Hstart Hend].
    assert ((a, b) ∈ sort_pairs (product candidates next_candidates)) as Hpair.
    { rewrite Hpairs. apply elem_of_app. right. apply list_elem_of_here. }
    apply elem_of_sorted_product in Hpair as [Hfrom Hto].
    exists route. rewrite Hstart, Hend. cbn [fst]. repeat split; try done.
    intros c_from c_to Hc_from Hc_to Hbetter.
    assert ((c_from, c_to) ∈ sort_pairs (product candidates next_candidates)) as Htried.
    { by apply elem_of_sorted_product. }
    rewrite Hpairs in Htried.
    apply elem_of_app in Htried as [Htried|Htried].
    { rewrite Forall_forall in Hrejected. by apply Hrejected. }
    apply elem_of_cons in Htried as [Htried|Htried].
    { rewrite Htried in Hbetter. by apply Qlt_irrefl in Hbetter. }
    pose proof (sorted_after _ _ _ _ (sort_pairs_sorted _) Hpairs) as Hlater.
    rewrite Forall_forall in Hlater. apply Hlater in Htried.
    unfold score_descending in Htried.
    exfalso. apply (Qlt_irrefl (pair_score (a, b))).
    by eapply Qlt_le_trans.
  - intros c st' Hst'.
    exact (match_tail_decoder_cache [] next_lrp [c] config observer (depth + 1)%Z st' Hst').
Qed.

Lemma match_pairs_all_rejected recurse current next_lrp candidates next_candidates
    observer lfrc minlen maxlen last_lrp pairs :
  Forall (λ pair, (handleCandidatePair (current, next_lrp) pair observer
                     lfrc minlen maxlen).1 = None) pairs →
  ∀ st,
    pair_failures_only (cache st) →
    (match_pairs recurse current next_lrp candidates next_candidates observer
       lfrc minlen maxlen last_lrp pairs st).1 = Raise (LRDecodeError NoCandidatesLeft).
Proof.
  induction 1 as [|[c_from c_to] pairs Hpair Hpairs IH]; intros st Hst.
  - cbn [match_pairs]. unfold matching_failed. done.
  - cbn [match_pairs].
    destruct (cache st !! (KCand c_from, c_to)) as [[v|]|] eqn:Hcached.
    + by apply Hst in Hcached.
    + done.
    + destruct (handleCandidatePair _ _ _ _ _ _) as [[route|] events]; [done|].
      apply IH. by apply (pair_failures_only_store_cand c_from c_to (emit events st)).
Qed.

(** X23. Over such a dictionary, where the next point has candidates but
    [handleCandidatePair] accepts no pair of a given candidate and a next
    candidate, [match_tail] raises [LRDecodeError] with the message that no
    candidates are left. *)
Theorem match_tail_all_pairs_rejected current candidates next_lrp tail' config observer
    depth st :
  decoder_cache (cache st) →
  candidates ≠ [] →
  (nominate_candidates next_lrp config observer
     (Nat.eqb (length (next_lrp :: tail')) 1)).1 ≠ [] →
  (∀ c_from c_to : Candidate,
     c_from ∈ candidates →
     c_to ∈ (nominate_candidates next_lrp config observer
               (Nat.eqb (length (next_lrp :: tail')) 1)).1 →
     (handleCandidatePair (current, next_lrp) (c_from, c_to) observer
        (tolerated_lfrc config (lfrcnp current))
        (dnp_minlen config current) (dnp_maxlen config current)).1 = None) →
  (match_tail current candidates (next_lrp :: tail') config observer depth st).1
  = Raise (LRDecodeError NoCandidatesLeft).
Proof.
  intros Hst Hcandidates Hnext Hnone.
  cbn [match_tail]. rewrite (memo_hit_no_depth_key _ _ _ (proj1 Hst)).
  destruct candidates as [|c0 candidates0]; [done|].
  destruct (nominate_candidates next_lrp config observer
              (Nat.eqb (length (next_lrp :: tail')) 1))
    as [next_candidates events].
  destruct next_candidates as [|n0 next_candidates0]; [done|].
  apply match_pairs_all_rejected; [|apply Hst].
  apply Forall_forall. intros [c_from c_to] Hpair.
  apply elem_of_sorted_product in Hpair as [Hfrom Hto]. by apply Hnone.
Qed.

Lemma match_pairs_stores recurse current next_lrp (c : Candidate) next_candidates observer
    lfrc minlen maxlen pairs :
  (∀ c' st, decoder_cache (cache st) → decoder_cache (cache (recurse c' st).2)) →
  ∀ st routes,
    decoder_cache (cache st) →
    (match_pairs recurse current next_lrp [c] next_candidates observer
       lfrc minlen maxlen false pairs st).1 = Ok routes →
    cache (match_pairs recurse current next_lrp [c] next_candidates observer
             lfrc minlen maxlen false pairs st).2 !! (KLrp current, c)
    = Some (Some routes).
Proof.
  intros Hkeeps.
  induction pairs as [|[c_from c_to] pairs IH]; intros st routes Hst.
  - cbn [match_pairs]. unfold matching_failed. done.
  - cbn [match_pairs].
    destruct (cache st !! (KCand c_from, c_to)) as [[v|]|] eqn:Hcached.
    + by apply (proj2 Hst) in Hcached.
    + done.
    + destruct (handleCandidatePair _ _ _ _ _ _) as [[route|] events].
      * pose proof (Hkeeps c_to (emit events st) Hst) as Hkept.
        destruct (recurse c_to (emit events st)) as [[rest|e] st1]; simpl in *.
        { intros [= <-]. apply lookup_insert_eq. }
        destruct e as [message| |]; try done. by apply IH.
      * apply IH. by apply (decoder_cache_store_cand c_from c_to (emit events st)).
Qed.

(** X24. Over such a dictionary, called with one candidate and at least two
    following points, a successful [match_tail] stores the list of routes it
    returns in the dictionary under the key of the point and the
    candidate. *)
Theorem match_tail_stores_result current (c : Candidate) next_lrp following tail' config
    observer depth st routes :
  decoder_cache (cache st) →
  (match_tail current [c] (next_lrp :: following :: tail') config observer depth st).1
  = Ok routes →
  cache (match_tail current [c] (next_lrp :: following :: tail') config observer depth st).2
    !! (KLrp current, c)
  = Some (Some routes).
Proof.
  intros Hst. cbn [match_tail]. rewrite (memo_hit_no_depth_key _ _ _ (proj1 Hst)).
  change (Nat.eqb (length (next_lrp :: following :: tail')) 1) with false.
  destruct (nominate_candidates next_lrp config observer false)
    as [[|n0 next_candidates0] events]; [done|].
  apply match_pairs_stores; [|done].
  intros c_to st' Hst'.
  exact (match_tail_decoder_cache (following :: tail') next_lrp [c_to] config observer
           (depth + 1)%Z st' Hst').
Qed.

End TailMatcherOutcomes.

(** ** The further properties on the small maps *)

Lemma make_candidates_gates_witness :
  line cand_c = line_c
  ∧ score cand_c = @score_lrp_candidate small_map lrp_last cand_c small_config true
  ∧ (frc_value (line_frc line_c) <= frc_value (tolerated_lfrc small_config (lfrcnp lrp_last)))%Z
  ∧ (Qabs (@angle_difference small_map
             (@compute_bearing small_map cand_c true (bear_dist small_config))
             (bear lrp_last))
     <= max_bear_deviation small_config)%Q
  ∧ (min_score small_config <= score cand_c)%Q.
Proof.
  apply (@make_candidates_gates small_map lrp_last line_c small_config false true cand_c).
  vm_compute. constructor.
Defined.

Lemma make_candidates_partial_line_witness : (0 < relative_offset cand_c)%Q.
Proof.
  apply (@make_candidates_partial_line small_map lrp_last line_c small_config false true
           cand_c).
  vm_compute. constructor.
Defined.

Lemma make_candidates_found_event_witness :
  ∃ earlier,
    [on_candidate_found lrp_last cand_c] = earlier ++ [on_candidate_found lrp_last cand_c].
Proof.
  apply (@make_candidates_found_event small_map lrp_last line_c small_config true cand_c
           [on_candidate_found lrp_last cand_c]).
  vm_compute. reflexivity.
Defined.


Lemma nominate_candidates_gates_witness :
  line cand_c ∈ @find_lines_close_to small_map (@coords small_map lrp_last)
                  (search_radius small_config).
Proof.
  destruct (@nominate_candidates_gates small_map lrp_last small_config false true cand_c)
    as [Hline _]; [vm_compute; constructor | exact Hline].
Defined.

Lemma nominate_candidates_bounded_witness :
  @nominate_candidates small_map lrp_nowhere small_config true false = ([], []).
Proof.
  apply (@nominate_candidates_bounded small_map lrp_nowhere small_config true false).
  reflexivity.
Defined.

Lemma get_candidate_route_respects_lfrc_witness :
  Forall (λ l, (frc_value (line_frc l) <= frc_value FRC4)%Z)
    (path (mkRoute cand_way_a [way_b] cand_way_c)).
Proof.
  destruct (@get_candidate_route_respects_lfrc road_map cand_way_a cand_way_c FRC4 1000
              (mkRoute cand_way_a [way_b] cand_way_c)) as (_ & _ & Hpath).
  - intros origin target linefilter limit found. simpl.
    destruct (origin =? target)%Z; [intros [= <-]; constructor|].
    destruct ((origin =? 11)%Z && (target =? 12)%Z && linefilter way_b) eqn:Hfound;
      [|discriminate].
    intros [= <-]. apply andb_true_iff in Hfound as [_ Hfound].
    constructor; [exact Hfound | constructor].
  - reflexivity.
  - exact Hpath.
Defined.

Lemma handleCandidatePair_exact_dnp_witness :
  (@handleCandidatePair small_map (lrp_first, lrp_last) (cand_a, cand_c) false FRC3
     (dnp_minlen small_config lrp_first) (dnp_maxlen small_config lrp_first)).1
  = Some route_a_c.
Proof.
  apply (@handleCandidatePair_exact_dnp small_map small_config lrp_first lrp_last
           cand_a cand_c false FRC3 route_a_c).
  - vm_compute. discriminate.
  - vm_compute. discriminate.
  - vm_compute. discriminate.
  - reflexivity.
  - vm_compute. reflexivity.
Defined.

Lemma sort_pairs_stable_witness :
  sort_pairs [(cand_a, cand_c); (cand_c, cand_a)] = [(cand_a, cand_c); (cand_c, cand_a)].
Proof.
  apply (sort_pairs_stable [(cand_a, cand_c); (cand_c, cand_a)]).
  repeat constructor; vm_compute; discriminate.
Defined.

Lemma is_invalid_node_one_way_witness : @is_invalid_node road_map 11%Z = true.
Proof.
  refine (proj2 (@is_invalid_node_one_way road_map 11%Z way_a way_b _ _ _ _) _);
    try reflexivity.
  repeat split; vm_compute; discriminate.
Defined.

Lemma is_invalid_node_two_way_witness : @is_invalid_node road_map 2%Z = true.
Proof.
  refine (proj2 (@is_invalid_node_two_way road_map 2%Z road_12 road_32 road_21 road_23
                   _ _ _ _ _ _ _) _);
    try reflexivity.
  repeat split; vm_compute; discriminate.
Defined.

Lemma match_tail_cache_discipline_witness :
  no_depth_key
    (cache (@match_tail small_map lrp_first [cand_a] [lrp_last] small_config false 0
              (mkState ∅ [])).2)
  ∧ pair_failures_only
      (cache (@match_tail small_map lrp_first [cand_a] [lrp_last] small_config false 0
                (mkState ∅ [])).2).
Proof.
  apply (@match_tail_cache_discipline small_map lrp_first [cand_a] [lrp_last] small_config
           false 0%Z (mkState ∅ [])).
  - intros depth c. reflexivity.
  - intros c_from c_to v. simpl. rewrite lookup_empty. discriminate.
Defined.


Lemma match_tail_one_route_per_point_witness :
  length [route_a_c; route_c_c] = length [lrp_mid; lrp_last].
Proof.
  apply (@match_tail_one_route_per_point small_map lrp_first [cand_a] [lrp_mid; lrp_last]
           small_config false 0%Z (mkState ∅ []) [route_a_c; route_c_c]).
  - apply decoder_cache_empty.
  - vm_compute. reflexivity.
Defined.

Lemma match_tail_routes_connected_witness :
  (∃ r, head [route_a_c; route_c_c] = Some r ∧ route_start r ∈ [cand_a])
  ∧ ∀ i r r', [route_a_c; route_c_c] !! i = Some r →
              [route_a_c; route_c_c] !! S i = Some r' →
              route_end r = route_start r'.
Proof.
  apply (@match_tail_routes_connected small_map lrp_first [cand_a] [lrp_mid; lrp_last]
           small_config false 0%Z (mkState ∅ []) [route_a_c; route_c_c]).
  - apply decoder_cache_empty.
  - vm_compute. reflexivity.
Defined.

Lemma match_tail_routes_within_dnp_witness :
  @get_candidate_route small_map (route_start route_c_c) (route_end route_c_c)
    (tolerated_lfrc small_config (lfrcnp lrp_mid)) (dnp_maxlen small_config lrp_mid)
  = Some route_c_c
  ∧ (dnp_minlen small_config lrp_mid <= @route_length small_map route_c_c)%Q
  ∧ (@route_length small_map route_c_c <= dnp_maxlen small_config lrp_mid)%Q.
Proof.
  apply (@match_tail_routes_within_dnp small_map lrp_first [cand_a] [lrp_mid; lrp_last]
           small_config false 0%Z (mkState ∅ []) [route_a_c; route_c_c] 1 lrp_mid route_c_c).
  - apply decoder_cache_empty.
  - vm_compute. reflexivity.
  - reflexivity.
  - reflexivity.
Defined.

Lemma match_tail_routes_end_at_nominated_witness :
  route_end route_c_c
  ∈ (@nominate_candidates small_map lrp_last small_config false
       (Nat.eqb 2 (length [lrp_mid; lrp_last]))).1.
Proof.
  apply (@match_tail_routes_end_at_nominated small_map lrp_first [cand_a]
           [lrp_mid; lrp_last] small_config false 0%Z (mkState ∅ [])
           [route_a_c; route_c_c] 1 lrp_last route_c_c).
  - apply decoder_cache_empty.
  - vm_compute. reflexivity.
  - reflexivity.
  - reflexivity.
Defined.


Lemma match_tail_last_hop_best_pair_witness :
  ∃ route,
    [route_a_c] = [route]
    ∧ route_start route ∈ [cand_a]
    ∧ route_end route ∈ (@nominate_candidates small_map lrp_last small_config false true).1
    ∧ ∀ c_from c_to : Candidate,
        c_from ∈ [cand_a] →
        c_to ∈ (@nominate_candidates small_map lrp_last small_config false true).1 →
        (pair_score (route_start route, route_end route) < pair_score (c_from, c_to))%Q →
        (@handleCandidatePair small_map (lrp_first, lrp_last) (c_from, c_to) false
           (tolerated_lfrc small_config (lfrcnp lrp_first))
           (dnp_minlen small_config lrp_first) (dnp_maxlen small_config lrp_first)).1
        = None.
Proof.
  apply (@match_tail_last_hop_best_pair small_map lrp_first [cand_a] lrp_last small_config
           false 0%Z (mkState ∅ []) [route_a_c]).
  - apply decoder_cache_empty.
  - vm_compute. reflexivity.
Defined.

Lemma match_tail_all_pairs_rejected_witness :
  (@match_tail small_map lrp_last [cand_a] [lrp_last] small_config false 0
     (mkState ∅ [])).1
  = Raise (LRDecodeError NoCandidatesLeft).
Proof.
  apply (@match_tail_all_pairs_rejected small_map lrp_last [cand_a] lrp_last []
           small_config false 0%Z (mkState ∅ [])).
  - apply decoder_cache_empty.
  - discriminate.
  - vm_compute. discriminate.
  - intros c_from c_to Hfrom Hto.
    apply list_elem_of_singleton in Hfrom as ->.
    change ((@nominate_candidates small_map lrp_last small_config false
               (Nat.eqb (length [lrp_last]) 1)).1)
      with [cand_c; cand_b] in Hto.
    apply elem_of_cons in Hto as [->|Hto]; [reflexivity|].
    apply list_elem_of_singleton in Hto as ->. reflexivity.
Defined.

Lemma match_tail_stores_result_witness :
  cache (@match_tail small_map lrp_first [cand_a] [lrp_mid; lrp_last] small_config false 0
           (mkState ∅ [])).2
    !! (KLrp lrp_first, cand_a)
  = Some (Some [route_a_c; route_c_c]).
Proof.
  apply (@match_tail_stores_result small_map lrp_first cand_a lrp_mid lrp_last []
           small_config false 0%Z (mkState ∅ []) [route_a_c; route_c_c]).
  - apply decoder_cache_empty.
  - vm_compute. reflexivity.
Defined.
